(** * go-crc: an arbitrary-width CRC calculator (crc.go)

    A shallow embedding of the generic CRC engine of crc.go together with
    the properties its specification states about it.

    Conventions of the embedding.
    - A value of a Go unsigned type [T] (uint8, uint16, uint32, uint64) is a
      [Z] in [0, 2^bitWidth T).  The operations that can leave that range in
      Go ([<<] and [-]) are written with their wrap-around ([shl], [sub]);
      [&], [|], [^] and [>>] stay inside the range and are [Z.land],
      [Z.lor], [Z.lxor] and [Z.shiftr].
    - A Go [int] is a [Z].  The only [int] arithmetic of the package that
      could overflow is [len(data) << 3], and that needs a buffer of 2^60
      bytes (2^28 bytes where [int] has 32 bits).
    - Input data ([[]byte]) is a [list byte].
    - A returned [error] is [Err], a run-time panic is [Panic]; a session
      method is a state transformer over the session it is called on. *)

From Stdlib Require Import ZArith Lia Bool.
From Stdlib.Strings Require Import String Byte.
From stdpp Require Import base numbers list.

Local Open Scope string_scope.
Local Open Scope Z_scope.

(** ** Unsigned integer types *)

(** [type UInt interface { uint8 | uint16 | uint32 | uint64 }] *)
Inductive UInt : Set := uint8 | uint16 | uint32 | uint64.

Definition bitWidth (T : UInt) : Z :=
  match T with
  | uint8 => 8
  | uint16 => 16
  | uint32 => 32
  | uint64 => 64
  end.

(** Truncation to the low [bitWidth T] bits: what a conversion [T(x)] and
    every overflowing operation on [T] do. *)
Definition wrap (T : UInt) (z : Z) : Z := z mod 2 ^ bitWidth T.

(** [x << n] on [T] (a shift count of [bitWidth T] or more gives 0). *)
Definition shl (T : UInt) (x n : Z) : Z := wrap T (Z.shiftl x n).

(** [x - y] on [T]. *)
Definition sub (T : UInt) (x y : Z) : Z := wrap T (x - y).

(** The values of type [T]. *)
Definition inT (T : UInt) (z : Z) : Prop := 0 <= z < 2 ^ bitWidth T.

(** The numeric value of a byte, and the byte of a numeric value. *)
Definition byteZ (b : byte) : Z := Z.of_N (Byte.to_N b).

Definition byte_of_Z (z : Z) : byte :=
  default x00 (Byte.of_N (Z.to_N (wrap uint8 z))).

(** Indexing a 256-entry array by a byte-sized index. *)
Definition index (tbl : list Z) (i : Z) : Z := default 0 (tbl !! Z.to_nat i).

(** ** Results of calls *)

(** [errors.New(msg)] *)
Inductive error : Set := errors_New (msg : string).

Inductive outcome (A : Type) : Type :=
| Ret (x : A)          (* normal return *)
| Err (e : error)      (* a non-nil [error] is returned *)
| Panic (msg : string) (* the call panics *).
Arguments Ret {A} x.
Arguments Err {A} e.
Arguments Panic {A} msg.

(** ** Reflection utility *)

(** One round of the loop of [reflect]:
    [val >>= 1; x <<= 1; x |= val & 1]. *)
Definition reflect_round (T : UInt) (st : Z * Z) : Z * Z :=
  let val := Z.shiftr (fst st) 1 in
  let x := shl T (snd st) 1 in
  let x := Z.lor x (Z.land val 1) in
  (val, x).

(** [func reflect[T UInt](val T, numBits int) T]: the loop
    [for i := 1; i < numBits; i++] runs [numBits - 1] times (not at all when
    [numBits <= 1]). *)
Definition reflect (T : UInt) (val numBits : Z) : Z :=
  snd (Nat.iter (Z.to_nat (numBits - 1)) (reflect_round T) (val, Z.land val 1)).

(** [var reflectedBytes [256]byte] as filled by [init]:
    [for i := byte(1); i != 0; i++ { reflectedBytes[i] = reflect(i, 8) }]. *)
Definition reflectedBytes : list Z :=
  foldl (fun tbl i => <[Z.to_nat i := reflect uint8 i 8]> tbl)
        (replicate 256 0) (seqZ 1 255).

(** ** The engine *)

(** [type algo[T UInt] struct] *)
Record algo (T : UInt) : Type := mk_algo {
  width : Z;
  refPoly : Z;
  refInit : Z;
  xorout : Z;
  refin : bool;
  refout : bool;
  table : list Z
}.
Arguments mk_algo {T}.
Arguments width {T}.
Arguments refPoly {T}.
Arguments refInit {T}.
Arguments xorout {T}.
Arguments refin {T}.
Arguments refout {T}.
Arguments table {T}.

(** [type crc[T UInt] struct { a *algo[T]; reg T }].  The field [a] is the
    engine the pointer refers to, so that a write through the pointer would
    show in the session state. *)
Record crc (T : UInt) : Type := mk_crc { a : algo T; reg : Z }.
Arguments mk_crc {T}.
Arguments a {T}.
Arguments reg {T}.

Section Engine.

Context {T : UInt}.

(** The assignment [a.table[i] = v]. *)
Definition set_table (a : algo T) (i v : Z) : algo T :=
  mk_algo (width a) (refPoly a) (refInit a) (xorout a) (refin a) (refout a)
          (<[Z.to_nat i := v]> (table a)).

(** One round of the loop of [bbbUpd]:
    [if (reg & 1) != 0 { reg = (reg >> 1) ^ a.refPoly } else { reg >>= 1 }]. *)
Definition bit_round (a : algo T) (reg : Z) : Z :=
  if negb (Z.land reg 1 =? 0)
  then Z.lxor (Z.shiftr reg 1) (refPoly a)
  else Z.shiftr reg 1.

(** [func (a *algo[T]) bbbUpd(reg T, b byte, bitLen int) T].  The mask
    [(1 << bitLen) - 1] is computed on [byte], so it is [0xff] for
    [bitLen = 8].  The method is not exported and its two callers pass
    [bitLen = 8] ([NewAlgo]) and [1 <= bitLen <= 7] ([tblUpd]); a negative
    [bitLen], on which Go would panic at the shift, is never passed. *)
Definition bbbUpd (a : algo T) (reg : Z) (b : byte) (bitLen : Z) : Z :=
  let b := if negb (refin a) then index reflectedBytes (byteZ b) else byteZ b in
  let b := Z.land b (sub uint8 (shl uint8 1 bitLen) 1) in
  let reg := Z.lxor reg b in
  Nat.iter (Z.to_nat bitLen) (bit_round a) reg.

(** The body of the [range] loop of [tblUpd]. *)
Definition tbl_round (a : algo T) (reg : Z) (b : byte) : Z :=
  let b := if negb (refin a) then index reflectedBytes (byteZ b) else byteZ b in
  Z.lxor (index (table a) (Z.lxor (wrap uint8 reg) b)) (Z.shiftr reg 8).

Definition bitLen_msg : string :=
  "bitLen is greater than the number of bits in the input data".

(** [func (a *algo[T]) tblUpd(reg T, data []byte, bitLen int) T].  The slice
    expression [data[:n]] and the index expression [data[n]] panic when out
    of range (a list has no capacity beyond its length); [tblUpd_returns]
    shows that neither of the two is ever reached. *)
Definition tblUpd (a : algo T) (reg : Z) (data : list byte) (bitLen : Z) : outcome Z :=
  let len := Z.of_nat (length data) in
  let go (n bitsLeft : Z) : outcome Z :=
    if len <? n then Panic "slice bounds out of range" else
    let reg := foldl (tbl_round a) reg (take (Z.to_nat n) data) in
    if 0 <? bitsLeft then
      match data !! Z.to_nat n with
      | Some b => Ret (bbbUpd a reg b bitsLeft)
      | None => Panic "index out of range"
      end
    else Ret reg in
  if bitLen <? 0 then go len 0
  else if Z.shiftl len 3 <? bitLen then Panic bitLen_msg
  else go (Z.shiftr bitLen 3) (Z.land bitLen 7).

(** [func checkParams[T UInt](width int, poly, init, xorout T) error];
    [None] is the [nil] error.  Go evaluates [T(1)<<(width-1)] only when
    [width > 0], so the shift count is never negative. *)
Definition width_msg : string :=
  "width must be greater than zero and less than or equal to the bit width of T".
Definition range_msg : string :=
  "poly, init or xorout is outside of the range allowed by width".

Definition checkParams (width poly init xorout : Z) : option error :=
  if (width <=? 0) || (shl T 1 (width - 1) =? 0) then Some (errors_New width_msg)
  else
    let m := sub T (shl T 1 width) 1 in
    if (m <? poly) || (m <? init) || (m <? xorout) then Some (errors_New range_msg)
    else None.

(** The loop of [NewAlgo]:
    [for i := 1; i < 256; i++ { a.table[i] = a.bbbUpd(T(i), 0, 8) }]. *)
Definition fill_table (a : algo T) : algo T :=
  foldl (fun a i => set_table a i (bbbUpd a (wrap T i) x00 8)) a (seqZ 1 255).

(** [func NewAlgo[T UInt](width int, poly, init, xorout T, refin, refout bool) (Algo[T], error)] *)
Definition NewAlgo (width poly init xorout : Z) (refin refout : bool) : outcome (algo T) :=
  match checkParams width poly init xorout with
  | Some err => Err err
  | None =>
      Ret (fill_table (mk_algo width (reflect T poly width) (reflect T init width)
                               xorout refin refout (replicate 256 0)))
  end.

(** ** Sessions *)

(** A session method: it returns, fails or panics, and leaves a session
    state behind in each case. *)
Definition M (A : Type) : Type := crc T -> outcome A * crc T.

Definition ret {A} (x : A) : M A := fun c => (Ret x, c).

Definition bind {A B} (m : M A) (k : A -> M B) : M B :=
  fun c =>
    match m c with
    | (Ret x, c') => k x c'
    | (Err e, c') => (Err e, c')
    | (Panic msg, c') => (Panic msg, c')
    end.

(** Reading the receiver, evaluating a call of an engine method, and the
    assignment [c.reg = r]. *)
Definition get : M (crc T) := fun c => (Ret c, c).
Definition call {A} (o : outcome A) : M A := fun c => (o, c).
Definition set_reg (r : Z) : M unit := fun c => (Ret tt, mk_crc (a c) r).

End Engine.

Arguments NewAlgo T : clear implicits.
Arguments checkParams T : clear implicits.
Arguments M T : clear implicits.

Notation "'do' x <- m ; k" := (bind m (fun x => k))
  (at level 10, x name, m at level 100, k at level 200).
Notation "'do_' m ; k" := (bind m (fun _ => k))
  (at level 10, m at level 100, k at level 200).

Section Session.

Context {T : UInt}.

(** [func (c *crc[T]) UpdateBits(data []byte, bitLen int)]:
    [c.reg = c.a.tblUpd(c.reg, data, bitLen)]. *)
Definition UpdateBits (data : list byte) (bitLen : Z) : M T unit :=
  do c <- get;
  do r <- call (tblUpd (a c) (reg c) data bitLen);
  set_reg r.

(** [func (c *crc[T]) Update(data []byte)] *)
Definition Update (data : list byte) : M T unit :=
  do c <- get;
  do r <- call (tblUpd (a c) (reg c) data (-1));
  set_reg r.

(** [func (c *crc[T]) Residue() T] *)
Definition Residue : M T Z :=
  do c <- get;
  if refout (a c) then ret (reg c) else ret (reflect T (reg c) (width (a c))).

(** [func (c *crc[T]) Final() T]: [c.Residue() ^ c.a.xorout]. *)
Definition Final : M T Z :=
  do r <- Residue;
  do c <- get;
  ret (Z.lxor r (xorout (a c))).

(** [func (a *algo[T]) NewCRC() CRC[T]] *)
Definition NewCRC (a : algo T) : crc T := mk_crc a (refInit a).

(** [func (a *algo[T]) CalcBits(data []byte, bitLen int) T] *)
Definition CalcBits (a : algo T) (data : list byte) (bitLen : Z) : outcome Z :=
  let c := NewCRC a in
  fst ((do_ UpdateBits data bitLen; Final) c).

(** [func (a *algo[T]) Calc(data []byte) T] *)
Definition Calc (a : algo T) (data : list byte) : outcome Z :=
  CalcBits a data (-1).

End Session.

(** ** Presets used by the examples of the package *)

(** [CRC5USB = mustNewPreset[uint8](5, 0x05, 0x1f, 0x1f, true, true)] *)
Definition CRC5USB : outcome (algo uint8) := NewAlgo uint8 5 0x05 0x1f 0x1f true true.

(** [CRC8SMBUS = mustNewPreset[uint8](8, 0x07, 0x00, 0x00, false, false)] *)
Definition CRC8SMBUS : outcome (algo uint8) := NewAlgo uint8 8 0x07 0x00 0x00 false false.

(** [CRC3GSM = mustNewPreset[uint8](3, 0x3, 0x0, 0x7, false, false)] *)
Definition CRC3GSM : outcome (algo uint8) := NewAlgo uint8 3 0x3 0x0 0x7 false false.

(** [CRC32ISOHDLC], checked against its catalogue value below. *)
Definition CRC32ISOHDLC : outcome (algo uint32) :=
  NewAlgo uint32 32 0x04c11db7 0xffffffff 0xffffffff true true.

Definition with_algo {T A} (o : outcome (algo T)) (f : algo T -> outcome A) : outcome A :=
  match o with
  | Ret a => f a
  | Err e => Err e
  | Panic msg => Panic msg
  end.

Definition check_input : list byte := list_byte_of_string "123456789".

(** ** Notions used by the statements *)

(** The byte that [bbbUpd] and [tblUpd] fold into the register: the input
    byte, reflected when [refin] is false. *)
Definition inbyte {T} (a : algo T) (b : byte) : Z :=
  if negb (refin a) then index reflectedBytes (byteZ b) else byteZ b.

(** The accelerator table holds, at every byte value, the register after
    eight rounds started from that value. *)
Definition table_ok {T} (a : algo T) : Prop :=
  forall k, 0 <= k < 256 -> index (table a) k = Nat.iter 8 (bit_round a) k.

(** The parameters that [checkParams] refuses. *)
Definition invalid_params (T : UInt) (width poly init xorout : Z) : Prop :=
  width <= 0 \/ bitWidth T < width \/
  2 ^ width - 1 < poly \/ 2 ^ width - 1 < init \/ 2 ^ width - 1 < xorout.

(** Two bytes with the same first [n] bits in the order in which the engine
    consumes them: the low [n] bits with [refin], the high [n] bits
    without. *)
Definition same_leading_bits {T} (e : algo T) (n : Z) (b1 b2 : byte) : Prop :=
  if refin e
  then byteZ b1 mod 2 ^ n = byteZ b2 mod 2 ^ n
  else Z.shiftr (byteZ b1) (8 - n) = Z.shiftr (byteZ b2) (8 - n).

(** The byte that carries the last [8 - k] bits of [b] once its first [k]
    bits have been consumed.  An engine with [refin] consumes a byte from its
    least significant bit, so the rest is [b >> k]; an engine without it
    consumes a byte from its most significant bit, so the rest is [b << k]. *)
Definition rest_byte {T} (a : algo T) (b : byte) (k : Z) : byte :=
  byte_of_Z (if refin a then Z.shiftr (byteZ b) k else Z.shiftl (byteZ b) k).

(** The three calls of a split session: [n] whole bytes and [k] bits of the
    byte [b1], the remaining [8 - k] bits in the byte [b2], and the rest of
    the data. *)
Definition split_session {T} (pre : list byte) (b1 : byte) (k : Z) (b2 : byte)
    (post : list byte) : M T Z :=
  do_ UpdateBits (pre ++ [b1]) (8 * Z.of_nat (length pre) + k);
  do_ UpdateBits [b2] (8 - k);
  do_ Update post;
  Final.

(** A session that consumes the whole data in one call. *)
Definition whole_session {T} (data : list byte) : M T Z :=
  do_ Update data; Final.

(** The queries of a session, for statements about sequences of queries. *)
Inductive query : Set := QFinal | QResidue.

Definition run_query {T} (q : query) : M T Z :=
  match q with
  | QFinal => Final
  | QResidue => Residue
  end.

Fixpoint run_queries {T} (qs : list query) : M T (list Z) :=
  match qs with
  | [] => ret []
  | q :: qs => do v <- run_query q; do vs <- run_queries qs; ret (v :: vs)
  end.

(** The four methods of a session; a query returns a value. *)
Inductive method : Set :=
| MUpdate (data : list byte)
| MUpdateBits (data : list byte) (bitLen : Z)
| MQuery (q : query).

Definition run_method {T} (m : method) : M T (option Z) :=
  match m with
  | MUpdate data => do_ Update data; ret None
  | MUpdateBits data bitLen => do_ UpdateBits data bitLen; ret None
  | MQuery q => do v <- run_query q; ret (Some v)
  end.

(** An engine shared by several sessions: the engine object and, for each
    session that [NewCRC] made from it, the register of that session.  A
    method called on session [i] runs on the shared engine and the register
    of [i]; whatever it leaves in the engine is what every session sees
    afterwards.  An index without a session stands for a nil session. *)
Record shared (T : UInt) : Type := mk_shared { engine : algo T; regs : list Z }.
Arguments mk_shared {T}.
Arguments engine {T}.
Arguments regs {T}.

Definition on_session {T A} (i : nat) (m : M T A) (w : shared T) : outcome A * shared T :=
  match regs w !! i with
  | Some r =>
      let (o, c) := m (mk_crc (engine w) r) in
      (o, mk_shared (a c) (<[i := reg c]> (regs w)))
  | None => (Panic "invalid memory address or nil pointer dereference", w)
  end.

(** ** Notions used by the further properties *)

(** The input bytes as one number in the order in which the engine consumes
    their bits: the bit consumed first is bit 0, the first bit of the second
    byte is bit 8, and so on. *)
Fixpoint input_value {T} (e : algo T) (data : list byte) : Z :=
  match data with
  | [] => 0
  | b :: data => Z.lxor (inbyte e b) (Z.shiftl (input_value e data) 8)
  end.

(** The register after [n] rounds of the loop of [bbbUpd]. *)
Definition rounds {T} (e : algo T) (n : Z) (r : Z) : Z :=
  Nat.iter (Z.to_nat n) (bit_round e) r.

(** The bytes of two buffers xored position by position. *)
Definition xor_bytes (A B : list byte) : list byte :=
  zip_with (fun x y => byte_of_Z (Z.lxor (byteZ x) (byteZ y))) A B.

(** A byte fed to a session one bit at a time: eight calls of [UpdateBits]
    with [bitLen = 1], the [i]th on a byte that carries the [i]th bit of [b]
    where the engine of the session reads its first bit. *)
Definition feed_bits {T} (b : byte) : M T unit :=
  do c <- get;
  foldr (fun i k => do_ UpdateBits [rest_byte (a c) b i] 1; k) (ret tt) (seqZ 0 8).

Definition feed_all_bits {T} (data : list byte) : M T unit :=
  foldr (fun b k => do_ feed_bits b; k) (ret tt) data.

(** The [n] low bytes of [v], least significant byte first and most
    significant byte first. *)
Fixpoint le_bytes (n : nat) (v : Z) : list byte :=
  match n with
  | O => []
  | S n => byte_of_Z v :: le_bytes n (Z.shiftr v 8)
  end.

Fixpoint be_bytes (n : nat) (v : Z) : list byte :=
  match n with
  | O => []
  | S n => byte_of_Z (Z.shiftr v (8 * Z.of_nat n)) :: be_bytes n v
  end.

(** A CRC value of [width] bits laid out as input for the engine that made
    it, as the codewords of the test table of the package are: an engine
    with [refin] reads the least significant bit of a byte first, so the
    value goes least significant byte first; an engine without it reads the
    most significant bit first, so the value goes most significant byte
    first, aligned to the top of its first byte. *)
Definition crc_bytes {T} (e : algo T) (v : Z) : list byte :=
  let n := Z.to_nat ((width e + 7) / 8) in
  if refin e then le_bytes n v
  else be_bytes n (Z.shiftl v (8 * Z.of_nat n - width e)).

(** The residue of a codeword, a message followed by its own CRC: [width]
    rounds on [xorout] in the bit order of the register, put in the bit order
    of the result. *)
Definition codeword_residue {T} (e : algo T) : Z :=
  let x := if refout e then xorout e else reflect T (xorout e) (width e) in
  let r := rounds e (width e) x in
  if refout e then r else reflect T r (width e).

(** The bytes of a buffer with the bits of each byte in reversed order. *)
Definition reflect_bytes (data : list byte) : list byte :=
  (fun b => byte_of_Z (index reflectedBytes (byteZ b))) <$> data.

(** ** Presets *)

(** [type preset[T UInt] struct]: the six parameters, the engine ([None] is
    the nil interface, until [Algo] has built the engine) and whether
    [algoOnce] has run its function.  The model is of calls made one after
    another; what [sync.Once] adds for concurrent calls is outside it. *)
Record preset (T : UInt) : Type := mk_preset {
  p_width : Z;
  p_poly : Z;
  p_init : Z;
  p_xorout : Z;
  p_refin : bool;
  p_refout : bool;
  p_algo : option (algo T);
  p_algoOnce : bool
}.
Arguments mk_preset {T}.
Arguments p_width {T}.
Arguments p_poly {T}.
Arguments p_init {T}.
Arguments p_xorout {T}.
Arguments p_refin {T}.
Arguments p_refout {T}.
Arguments p_algo {T}.
Arguments p_algoOnce {T}.

(** [func newPreset[T UInt](width int, poly, init, xorout T, refin, refout bool) (Preset[T], error)] *)
Definition newPreset (T : UInt) (width poly init xorout : Z) (refin refout : bool)
    : outcome (preset T) :=
  match checkParams T width poly init xorout with
  | Some err => Err err
  | None => Ret (mk_preset width poly init xorout refin refout None false)
  end.

(** [func mustNewPreset[T UInt](...) Preset[T]]: [panic(err)] on an error. *)
Definition mustNewPreset (T : UInt) (width poly init xorout : Z) (refin refout : bool)
    : outcome (preset T) :=
  match newPreset T width poly init xorout refin refout with
  | Ret p => Ret p
  | Err (errors_New msg) => Panic msg
  | Panic msg => Panic msg
  end.

(** A method of a preset: it returns or panics, and leaves a preset state
    behind in each case. *)
Definition PM (T : UInt) (A : Type) : Type := preset T -> outcome A * preset T.

Definition nil_msg : string := "invalid memory address or nil pointer dereference".

(** [func (p *preset[T]) Algo() Algo[T]].  [p.algoOnce.Do(f)] runs [f] when
    it has not run before and records that it ran, also when [f] panics;
    [f] builds the engine, panics on an error, and stores the engine. *)
Definition preset_Algo {T} : PM T (option (algo T)) :=
  fun p =>
    if p_algoOnce p then (Ret (p_algo p), p)
    else
      let ran algo :=
        mk_preset (p_width p) (p_poly p) (p_init p) (p_xorout p) (p_refin p) (p_refout p)
                  algo true in
      match NewAlgo T (p_width p) (p_poly p) (p_init p) (p_xorout p)
                    (p_refin p) (p_refout p) with
      | Ret a => (Ret (Some a), ran (Some a))
      | Err _ => (Panic "invalid CRC preset", ran (p_algo p))
      | Panic msg => (Panic msg, ran (p_algo p))
      end.

(** A call of a method on the engine that [p.Algo()] returns; on the nil
    interface the call panics. *)
Definition on_Algo {T A} (f : algo T -> outcome A) : PM T A :=
  fun p =>
    match preset_Algo p with
    | (Ret (Some a), p') => (f a, p')
    | (Ret None, p') => (Panic nil_msg, p')
    | (Err e, p') => (Err e, p')
    | (Panic msg, p') => (Panic msg, p')
    end.

(** [func (p *preset[T]) NewCRC() CRC[T]] *)
Definition preset_NewCRC {T} : PM T (crc T) := on_Algo (fun a => Ret (NewCRC a)).

(** [func (p *preset[T]) Calc(data []byte) T] *)
Definition preset_Calc {T} (data : list byte) : PM T Z := on_Algo (fun a => Calc a data).

(** [func (p *preset[T]) CalcBits(data []byte, bitLen int) T] *)
Definition preset_CalcBits {T} (data : list byte) (bitLen : Z) : PM T Z :=
  on_Algo (fun a => CalcBits a data bitLen).

(** ** The tests of the package (crc_test.go) *)

(** A row of the table [presets]. *)
Record test_row : Type := mk_row {
  row_name : string;
  row_T : UInt;
  row_preset : outcome (preset row_T);
  row_check : Z;
  row_residue : Z;
  row_codeWord : list byte;
  row_codeWordBitLen : Z
}.

(** The body of [TestCRC] for one row: [true] when the test passes.  The
    wrapper [algo64] converts the result to [uint64]. *)
Definition TestCRC_row (p : test_row) : bool :=
  match row_preset p with
  | Ret pr =>
      match fst (preset_CalcBits (list_byte_of_string "123456789") (-1) pr) with
      | Ret c => wrap uint64 c =? row_check p
      | _ => false
      end
  | _ => false
  end.

(** The body of [TestResidue] for one row. *)
Definition TestResidue_row (p : test_row) : bool :=
  match row_preset p with
  | Ret pr =>
      match fst (preset_NewCRC pr) with
      | Ret c =>
          match fst ((do_ UpdateBits (row_codeWord p) (row_codeWordBitLen p); Residue) c) with
          | Ret r => wrap uint64 r =? row_residue p
          | _ => false
          end
      | _ => false
      end
  | _ => false
  end.

(** ** The presets of the package

    [mustNewPreset] and the variables of the catalogue of crc.go, in the
    order of the source. *)

Module Catalogue.

Definition CRC3GSM : outcome (preset uint8) :=
  mustNewPreset uint8 3 0x3 0x0 0x7 false false. (* CRC-3/GSM *)
Definition CRC3ROHC : outcome (preset uint8) :=
  mustNewPreset uint8 3 0x3 0x7 0x0 true true. (* CRC-3/ROHC *)
Definition CRC4INTERLAKEN : outcome (preset uint8) :=
  mustNewPreset uint8 4 0x3 0xf 0xf false false. (* CRC-4/INTERLAKEN *)
Definition CRC4G704 : outcome (preset uint8) :=
  mustNewPreset uint8 4 0x3 0x0 0x0 true true. (* CRC-4/G-704 *)
Definition CRC5USB : outcome (preset uint8) :=
  mustNewPreset uint8 5 0x05 0x1f 0x1f true true. (* CRC-5/USB *)
Definition CRC5EPCC1G2 : outcome (preset uint8) :=
  mustNewPreset uint8 5 0x09 0x09 0x00 false false. (* CRC-5/EPC-C1G2 *)
Definition CRC5G704 : outcome (preset uint8) :=
  mustNewPreset uint8 5 0x15 0x00 0x00 true true. (* CRC-5/G-704 *)
Definition CRC6G704 : outcome (preset uint8) :=
  mustNewPreset uint8 6 0x03 0x00 0x00 true true. (* CRC-6/G-704 *)
Definition CRC6CDMA2000B : outcome (preset uint8) :=
  mustNewPreset uint8 6 0x07 0x3f 0x00 false false. (* CRC-6/CDMA2000-B *)
Definition CRC6DARC : outcome (preset uint8) :=
  mustNewPreset uint8 6 0x19 0x00 0x00 true true. (* CRC-6/DARC *)
Definition CRC6CDMA2000A : outcome (preset uint8) :=
  mustNewPreset uint8 6 0x27 0x3f 0x00 false false. (* CRC-6/CDMA2000-A *)
Definition CRC6GSM : outcome (preset uint8) :=
  mustNewPreset uint8 6 0x2f 0x00 0x3f false false. (* CRC-6/GSM *)
Definition CRC7MMC : outcome (preset uint8) :=
  mustNewPreset uint8 7 0x09 0x00 0x00 false false. (* CRC-7/MMC *)
Definition CRC7UMTS : outcome (preset uint8) :=
  mustNewPreset uint8 7 0x45 0x00 0x00 false false. (* CRC-7/UMTS *)
Definition CRC7ROHC : outcome (preset uint8) :=
  mustNewPreset uint8 7 0x4f 0x7f 0x00 true true. (* CRC-7/ROHC *)
Definition CRC8SMBUS : outcome (preset uint8) :=
  mustNewPreset uint8 8 0x07 0x00 0x00 false false. (* CRC-8/SMBUS *)
Definition CRC8I4321 : outcome (preset uint8) :=
  mustNewPreset uint8 8 0x07 0x00 0x55 false false. (* CRC-8/I-432-1 *)
Definition CRC8ROHC : outcome (preset uint8) :=
  mustNewPreset uint8 8 0x07 0xff 0x00 true true. (* CRC-8/ROHC *)
Definition CRC8GSMA : outcome (preset uint8) :=
  mustNewPreset uint8 8 0x1d 0x00 0x00 false false. (* CRC-8/GSM-A *)
Definition CRC8MIFAREMAD : outcome (preset uint8) :=
  mustNewPreset uint8 8 0x1d 0xc7 0x00 false false. (* CRC-8/MIFARE-MAD *)
Definition CRC8ICODE : outcome (preset uint8) :=
  mustNewPreset uint8 8 0x1d 0xfd 0x00 false false. (* CRC-8/I-CODE *)
Definition CRC8HITAG : outcome (preset uint8) :=
  mustNewPreset uint8 8 0x1d 0xff 0x00 false false. (* CRC-8/HITAG *)
Definition CRC8SAEJ1850 : outcome (preset uint8) :=
  mustNewPreset uint8 8 0x1d 0xff 0xff false false. (* CRC-8/SAE-J1850 *)
Definition CRC8TECH3250 : outcome (preset uint8) :=
  mustNewPreset uint8 8 0x1d 0xff 0x00 true true. (* CRC-8/TECH-3250 *)
Definition CRC8OPENSAFETY : outcome (preset uint8) :=
  mustNewPreset uint8 8 0x2f 0x00 0x00 false false. (* CRC-8/OPENSAFETY *)
Definition CRC8AUTOSAR : outcome (preset uint8) :=
  mustNewPreset uint8 8 0x2f 0xff 0xff false false. (* CRC-8/AUTOSAR *)
Definition CRC8NRSC5 : outcome (preset uint8) :=
  mustNewPreset uint8 8 0x31 0xff 0x00 false false. (* CRC-8/NRSC-5 *)
Definition CRC8MAXIMDOW : outcome (preset uint8) :=
  mustNewPreset uint8 8 0x31 0x00 0x00 true true. (* CRC-8/MAXIM-DOW *)
Definition CRC8DARC : outcome (preset uint8) :=
  mustNewPreset uint8 8 0x39 0x00 0x00 true true. (* CRC-8/DARC *)
Definition CRC8GSMB : outcome (preset uint8) :=
  mustNewPreset uint8 8 0x49 0x00 0xff false false. (* CRC-8/GSM-B *)
Definition CRC8LTE : outcome (preset uint8) :=
  mustNewPreset uint8 8 0x9b 0x00 0x00 false false. (* CRC-8/LTE *)
Definition CRC8CDMA2000 : outcome (preset uint8) :=
  mustNewPreset uint8 8 0x9b 0xff 0x00 false false. (* CRC-8/CDMA2000 *)
Definition CRC8WCDMA : outcome (preset uint8) :=
  mustNewPreset uint8 8 0x9b 0x00 0x00 true true. (* CRC-8/WCDMA *)
Definition CRC8BLUETOOTH : outcome (preset uint8) :=
  mustNewPreset uint8 8 0xa7 0x00 0x00 true true. (* CRC-8/BLUETOOTH *)
Definition CRC8DVBS2 : outcome (preset uint8) :=
  mustNewPreset uint8 8 0xd5 0x00 0x00 false false. (* CRC-8/DVB-S2 *)
Definition CRC10GSM : outcome (preset uint16) :=
  mustNewPreset uint16 10 0x175 0x000 0x3ff false false. (* CRC-10/GSM *)
Definition CRC10ATM : outcome (preset uint16) :=
  mustNewPreset uint16 10 0x233 0x000 0x000 false false. (* CRC-10/ATM *)
Definition CRC10CDMA2000 : outcome (preset uint16) :=
  mustNewPreset uint16 10 0x3d9 0x3ff 0x000 false false. (* CRC-10/CDMA2000 *)
Definition CRC11UMTS : outcome (preset uint16) :=
  mustNewPreset uint16 11 0x307 0x000 0x000 false false. (* CRC-11/UMTS *)
Definition CRC11FLEXRAY : outcome (preset uint16) :=
  mustNewPreset uint16 11 0x385 0x01a 0x000 false false. (* CRC-11/FLEXRAY *)
Definition CRC12DECT : outcome (preset uint16) :=
  mustNewPreset uint16 12 0x80f 0x000 0x000 false false. (* CRC-12/DECT *)
Definition CRC12UMTS : outcome (preset uint16) :=
  mustNewPreset uint16 12 0x80f 0x000 0x000 false true. (* CRC-12/UMTS *)
Definition CRC12GSM : outcome (preset uint16) :=
  mustNewPreset uint16 12 0xd31 0x000 0xfff false false. (* CRC-12/GSM *)
Definition CRC12CDMA2000 : outcome (preset uint16) :=
  mustNewPreset uint16 12 0xf13 0xfff 0x000 false false. (* CRC-12/CDMA2000 *)
Definition CRC13BBC : outcome (preset uint16) :=
  mustNewPreset uint16 13 0x1cf5 0x0000 0x0000 false false. (* CRC-13/BBC *)
Definition CRC14DARC : outcome (preset uint16) :=
  mustNewPreset uint16 14 0x0805 0x0000 0x0000 true true. (* CRC-14/DARC *)
Definition CRC14GSM : outcome (preset uint16) :=
  mustNewPreset uint16 14 0x202d 0x0000 0x3fff false false. (* CRC-14/GSM *)
Definition CRC15CAN : outcome (preset uint16) :=
  mustNewPreset uint16 15 0x4599 0x0000 0x0000 false false. (* CRC-15/CAN *)
Definition CRC15MPT1327 : outcome (preset uint16) :=
  mustNewPreset uint16 15 0x6815 0x0000 0x0001 false false. (* CRC-15/MPT1327 *)
Definition CRC16DECTX : outcome (preset uint16) :=
  mustNewPreset uint16 16 0x0589 0x0000 0x0000 false false. (* CRC-16/DECT-X *)
Definition CRC16DECTR : outcome (preset uint16) :=
  mustNewPreset uint16 16 0x0589 0x0000 0x0001 false false. (* CRC-16/DECT-R *)
Definition CRC16NRSC5 : outcome (preset uint16) :=
  mustNewPreset uint16 16 0x080b 0xffff 0x0000 true true. (* CRC-16/NRSC-5 *)
Definition CRC16XMODEM : outcome (preset uint16) :=
  mustNewPreset uint16 16 0x1021 0x0000 0x0000 false false. (* CRC-16/XMODEM *)
Definition CRC16GSM : outcome (preset uint16) :=
  mustNewPreset uint16 16 0x1021 0x0000 0xffff false false. (* CRC-16/GSM *)
Definition CRC16SPIFUJITSU : outcome (preset uint16) :=
  mustNewPreset uint16 16 0x1021 0x1d0f 0x0000 false false. (* CRC-16/SPI-FUJITSU *)
Definition CRC16IBM3740 : outcome (preset uint16) :=
  mustNewPreset uint16 16 0x1021 0xffff 0x0000 false false. (* CRC-16/IBM-3740 *)
Definition CRC16GENIBUS : outcome (preset uint16) :=
  mustNewPreset uint16 16 0x1021 0xffff 0xffff false false. (* CRC-16/GENIBUS *)
Definition CRC16KERMIT : outcome (preset uint16) :=
  mustNewPreset uint16 16 0x1021 0x0000 0x0000 true true. (* CRC-16/KERMIT *)
Definition CRC16TMS37157 : outcome (preset uint16) :=
  mustNewPreset uint16 16 0x1021 0x89ec 0x0000 true true. (* CRC-16/TMS37157 *)
Definition CRC16RIELLO : outcome (preset uint16) :=
  mustNewPreset uint16 16 0x1021 0xb2aa 0x0000 true true. (* CRC-16/RIELLO *)
Definition CRC16ISOIEC144433A : outcome (preset uint16) :=
  mustNewPreset uint16 16 0x1021 0xc6c6 0x0000 true true. (* CRC-16/ISO-IEC-14443-3-A *)
Definition CRC16MCRF4XX : outcome (preset uint16) :=
  mustNewPreset uint16 16 0x1021 0xffff 0x0000 true true. (* CRC-16/MCRF4XX *)
Definition CRC16IBMSDLC : outcome (preset uint16) :=
  mustNewPreset uint16 16 0x1021 0xffff 0xffff true true. (* CRC-16/IBM-SDLC *)
Definition CRC16PROFIBUS : outcome (preset uint16) :=
  mustNewPreset uint16 16 0x1dcf 0xffff 0xffff false false. (* CRC-16/PROFIBUS *)
Definition CRC16EN13757 : outcome (preset uint16) :=
  mustNewPreset uint16 16 0x3d65 0x0000 0xffff false false. (* CRC-16/EN-13757 *)
Definition CRC16DNP : outcome (preset uint16) :=
  mustNewPreset uint16 16 0x3d65 0x0000 0xffff true true. (* CRC-16/DNP *)
Definition CRC16OPENSAFETYA : outcome (preset uint16) :=
  mustNewPreset uint16 16 0x5935 0x0000 0x0000 false false. (* CRC-16/OPENSAFETY-A *)
Definition CRC16M17 : outcome (preset uint16) :=
  mustNewPreset uint16 16 0x5935 0xffff 0x0000 false false. (* CRC-16/M17 *)
Definition CRC16LJ1200 : outcome (preset uint16) :=
  mustNewPreset uint16 16 0x6f63 0x0000 0x0000 false false. (* CRC-16/LJ1200 *)
Definition CRC16OPENSAFETYB : outcome (preset uint16) :=
  mustNewPreset uint16 16 0x755b 0x0000 0x0000 false false. (* CRC-16/OPENSAFETY-B *)
Definition CRC16UMTS : outcome (preset uint16) :=
  mustNewPreset uint16 16 0x8005 0x0000 0x0000 false false. (* CRC-16/UMTS *)
Definition CRC16DDS110 : outcome (preset uint16) :=
  mustNewPreset uint16 16 0x8005 0x800d 0x0000 false false. (* CRC-16/DDS-110 *)
Definition CRC16CMS : outcome (preset uint16) :=
  mustNewPreset uint16 16 0x8005 0xffff 0x0000 false false. (* CRC-16/CMS *)
Definition CRC16ARC : outcome (preset uint16) :=
  mustNewPreset uint16 16 0x8005 0x0000 0x0000 true true. (* CRC-16/ARC *)
Definition CRC16MAXIMDOW : outcome (preset uint16) :=
  mustNewPreset uint16 16 0x8005 0x0000 0xffff true true. (* CRC-16/MAXIM-DOW *)
Definition CRC16MODBUS : outcome (preset uint16) :=
  mustNewPreset uint16 16 0x8005 0xffff 0x0000 true true. (* CRC-16/MODBUS *)
Definition CRC16USB : outcome (preset uint16) :=
  mustNewPreset uint16 16 0x8005 0xffff 0xffff true true. (* CRC-16/USB *)
Definition CRC16T10DIF : outcome (preset uint16) :=
  mustNewPreset uint16 16 0x8bb7 0x0000 0x0000 false false. (* CRC-16/T10-DIF *)
Definition CRC16TELEDISK : outcome (preset uint16) :=
  mustNewPreset uint16 16 0xa097 0x0000 0x0000 false false. (* CRC-16/TELEDISK *)
Definition CRC16CDMA2000 : outcome (preset uint16) :=
  mustNewPreset uint16 16 0xc867 0xffff 0x0000 false false. (* CRC-16/CDMA2000 *)
Definition CRC17CANFD : outcome (preset uint32) :=
  mustNewPreset uint32 17 0x1685b 0x00000 0x00000 false false. (* CRC-17/CAN-FD *)
Definition CRC21CANFD : outcome (preset uint32) :=
  mustNewPreset uint32 21 0x102899 0x000000 0x000000 false false. (* CRC-21/CAN-FD *)
Definition CRC24BLE : outcome (preset uint32) :=
  mustNewPreset uint32 24 0x00065b 0x555555 0x000000 true true. (* CRC-24/BLE *)
Definition CRC24INTERLAKEN : outcome (preset uint32) :=
  mustNewPreset uint32 24 0x328b63 0xffffff 0xffffff false false. (* CRC-24/INTERLAKEN *)
Definition CRC24FLEXRAYB : outcome (preset uint32) :=
  mustNewPreset uint32 24 0x5d6dcb 0xabcdef 0x000000 false false. (* CRC-24/FLEXRAY-B *)
Definition CRC24FLEXRAYA : outcome (preset uint32) :=
  mustNewPreset uint32 24 0x5d6dcb 0xfedcba 0x000000 false false. (* CRC-24/FLEXRAY-A *)
Definition CRC24LTEB : outcome (preset uint32) :=
  mustNewPreset uint32 24 0x800063 0x000000 0x000000 false false. (* CRC-24/LTE-B *)
Definition CRC24OS9 : outcome (preset uint32) :=
  mustNewPreset uint32 24 0x800063 0xffffff 0xffffff false false. (* CRC-24/OS-9 *)
Definition CRC24LTEA : outcome (preset uint32) :=
  mustNewPreset uint32 24 0x864cfb 0x000000 0x000000 false false. (* CRC-24/LTE-A *)
Definition CRC24OPENPGP : outcome (preset uint32) :=
  mustNewPreset uint32 24 0x864cfb 0xb704ce 0x000000 false false. (* CRC-24/OPENPGP *)
Definition CRC30CDMA : outcome (preset uint32) :=
  mustNewPreset uint32 30 0x2030b9c7 0x3fffffff 0x3fffffff false false. (* CRC-30/CDMA *)
Definition CRC31PHILIPS : outcome (preset uint32) :=
  mustNewPreset uint32 31 0x04c11db7 0x7fffffff 0x7fffffff false false. (* CRC-31/PHILIPS *)
Definition CRC32XFER : outcome (preset uint32) :=
  mustNewPreset uint32 32 0x000000af 0x00000000 0x00000000 false false. (* CRC-32/XFER *)
Definition CRC32CKSUM : outcome (preset uint32) :=
  mustNewPreset uint32 32 0x04c11db7 0x00000000 0xffffffff false false. (* CRC-32/CKSUM *)
Definition CRC32MPEG2 : outcome (preset uint32) :=
  mustNewPreset uint32 32 0x04c11db7 0xffffffff 0x00000000 false false. (* CRC-32/MPEG-2 *)
Definition CRC32BZIP2 : outcome (preset uint32) :=
  mustNewPreset uint32 32 0x04c11db7 0xffffffff 0xffffffff false false. (* CRC-32/BZIP2 *)
Definition CRC32JAMCRC : outcome (preset uint32) :=
  mustNewPreset uint32 32 0x04c11db7 0xffffffff 0x00000000 true true. (* CRC-32/JAMCRC *)
Definition CRC32ISOHDLC : outcome (preset uint32) :=
  mustNewPreset uint32 32 0x04c11db7 0xffffffff 0xffffffff true true. (* CRC-32/ISO-HDLC *)
Definition CRC32ISCSI : outcome (preset uint32) :=
  mustNewPreset uint32 32 0x1edc6f41 0xffffffff 0xffffffff true true. (* CRC-32/ISCSI *)
Definition CRC32MEF : outcome (preset uint32) :=
  mustNewPreset uint32 32 0x741b8cd7 0xffffffff 0x00000000 true true. (* CRC-32/MEF *)
Definition CRC32CDROMEDC : outcome (preset uint32) :=
  mustNewPreset uint32 32 0x8001801b 0x00000000 0x00000000 true true. (* CRC-32/CD-ROM-EDC *)
Definition CRC32AIXM : outcome (preset uint32) :=
  mustNewPreset uint32 32 0x814141ab 0x00000000 0x00000000 false false. (* CRC-32/AIXM *)
Definition CRC32BASE91D : outcome (preset uint32) :=
  mustNewPreset uint32 32 0xa833982b 0xffffffff 0xffffffff true true. (* CRC-32/BASE91-D *)
Definition CRC32AUTOSAR : outcome (preset uint32) :=
  mustNewPreset uint32 32 0xf4acfb13 0xffffffff 0xffffffff true true. (* CRC-32/AUTOSAR *)
Definition CRC40GSM : outcome (preset uint64) :=
  mustNewPreset uint64 40 0x0004820009 0x0000000000 0xffffffffff false false. (* CRC-40/GSM *)
Definition CRC64GOISO : outcome (preset uint64) :=
  mustNewPreset uint64 64 0x000000000000001b 0xffffffffffffffff 0xffffffffffffffff true true. (* CRC-64/GO-ISO *)
Definition CRC64MS : outcome (preset uint64) :=
  mustNewPreset uint64 64 0x259c84cba6426349 0xffffffffffffffff 0x0000000000000000 true true. (* CRC-64/MS *)
Definition CRC64ECMA182 : outcome (preset uint64) :=
  mustNewPreset uint64 64 0x42f0e1eba9ea3693 0x0000000000000000 0x0000000000000000 false false. (* CRC-64/ECMA-182 *)
Definition CRC64WE : outcome (preset uint64) :=
  mustNewPreset uint64 64 0x42f0e1eba9ea3693 0xffffffffffffffff 0xffffffffffffffff false false. (* CRC-64/WE *)
Definition CRC64XZ : outcome (preset uint64) :=
  mustNewPreset uint64 64 0x42f0e1eba9ea3693 0xffffffffffffffff 0xffffffffffffffff true true. (* CRC-64/XZ *)
Definition CRC64REDIS : outcome (preset uint64) :=
  mustNewPreset uint64 64 0xad93d23594c935a9 0x0000000000000000 0x0000000000000000 true true. (* CRC-64/REDIS *)

(** The aliases. *)
Definition CRC8 : outcome (preset uint8) := CRC8SMBUS.
Definition CRC16 : outcome (preset uint16) := CRC16ARC.
Definition CRC32 : outcome (preset uint32) := CRC32ISOHDLC.
Definition CRC64 : outcome (preset uint64) := CRC64ECMA182.
Definition CRC32C : outcome (preset uint32) := CRC32ISCSI.
Definition CRC32D : outcome (preset uint32) := CRC32BASE91D.
Definition CRC32Q : outcome (preset uint32) := CRC32AIXM.
Definition A : outcome (preset uint16) := CRC16ISOIEC144433A.
Definition B : outcome (preset uint16) := CRC16IBMSDLC.
Definition X25 : outcome (preset uint16) := CRC16IBMSDLC.
Definition CRC16X25 : outcome (preset uint16) := CRC16IBMSDLC.
Definition XMODEM : outcome (preset uint16) := CRC16XMODEM.
Definition KERMIT : outcome (preset uint16) := CRC16KERMIT.
Definition CRC16CCITT : outcome (preset uint16) := CRC16KERMIT.
Definition CRC16CCITTFALSE : outcome (preset uint16) := CRC16IBM3740.
Definition CRC16AUGCCITT : outcome (preset uint16) := CRC16SPIFUJITSU.
Definition V41LSB : outcome (preset uint16) := CRC16KERMIT.
Definition V41MSB : outcome (preset uint16) := CRC16XMODEM.
Definition PKZIP : outcome (preset uint32) := CRC32ISOHDLC.
Definition V42 : outcome (preset uint32) := CRC32ISOHDLC.
Definition XZ : outcome (preset uint32) := CRC32ISOHDLC.
Definition POSIX : outcome (preset uint32) := CRC32CKSUM.
Definition CASTAGNOLI : outcome (preset uint32) := CRC32ISCSI.

End Catalogue.

(** The table [presets] of crc_test.go: the name, the preset, the check
    value, the residue, and the codeword with its length in bits. *)
Definition presets : list test_row := [
  mk_row "CRC3GSM" uint8 Catalogue.CRC3GSM 0x4 0x2
         (list_byte_of_string "CRC3GSM" ++ [xe0]) 59;
  mk_row "CRC3ROHC" uint8 Catalogue.CRC3ROHC 0x6 0x0
         (list_byte_of_string "CRC3ROHC" ++ [x06]) 67;
  mk_row "CRC4INTERLAKEN" uint8 Catalogue.CRC4INTERLAKEN 0xb 0x2
         (list_byte_of_string "CRC4INTERLAKEN" ++ [x40]) 116;
  mk_row "CRC4G704" uint8 Catalogue.CRC4G704 0x7 0x0
         (list_byte_of_string "CRC4G704" ++ [x09]) 68;
  mk_row "CRC5USB" uint8 Catalogue.CRC5USB 0x19 0x06
         (list_byte_of_string "CRC5USB" ++ [x0d]) 61;
  mk_row "CRC5EPCC1G2" uint8 Catalogue.CRC5EPCC1G2 0x00 0x00
         (list_byte_of_string "CRC5EPCC1G2" ++ [xc0]) 93;
  mk_row "CRC5G704" uint8 Catalogue.CRC5G704 0x07 0x00
         (list_byte_of_string "CRC5G704" ++ [x02]) 69;
  mk_row "CRC6G704" uint8 Catalogue.CRC6G704 0x06 0x00
         (list_byte_of_string "CRC6G704" ++ [x0b]) 70;
  mk_row "CRC6CDMA2000B" uint8 Catalogue.CRC6CDMA2000B 0x3b 0x00
         (list_byte_of_string "CRC6CDMA2000B" ++ [xec]) 110;
  mk_row "CRC6DARC" uint8 Catalogue.CRC6DARC 0x26 0x00
         (list_byte_of_string "CRC6DARC" ++ [x02]) 70;
  mk_row "CRC6CDMA2000A" uint8 Catalogue.CRC6CDMA2000A 0x0d 0x00
         (list_byte_of_string "CRC6CDMA2000A" ++ [x7c]) 110;
  mk_row "CRC6GSM" uint8 Catalogue.CRC6GSM 0x13 0x3a
         (list_byte_of_string "CRC6GSM" ++ [x54]) 62;
  mk_row "CRC7MMC" uint8 Catalogue.CRC7MMC 0x75 0x00
         (list_byte_of_string "CRC7MMC" ++ [xae]) 63;
  mk_row "CRC7UMTS" uint8 Catalogue.CRC7UMTS 0x61 0x00
         (list_byte_of_string "CRC7UMTS" ++ [x94]) 71;
  mk_row "CRC7ROHC" uint8 Catalogue.CRC7ROHC 0x53 0x00
         (list_byte_of_string "CRC7ROHC" ++ [x1e]) 71;
  mk_row "CRC8SMBUS" uint8 Catalogue.CRC8SMBUS 0xf4 0x00
         (list_byte_of_string "CRC8SMBUS" ++ [x0f]) 80;
  mk_row "CRC8I4321" uint8 Catalogue.CRC8I4321 0xa1 0xac
         (list_byte_of_string "CRC8I4321" ++ [x9a]) 80;
  mk_row "CRC8ROHC" uint8 Catalogue.CRC8ROHC 0xd0 0x00
         (list_byte_of_string "CRC8ROHC" ++ [x26]) 72;
  mk_row "CRC8GSMA" uint8 Catalogue.CRC8GSMA 0x37 0x00
         (list_byte_of_string "CRC8GSMA" ++ [xeb]) 72;
  mk_row "CRC8MIFAREMAD" uint8 Catalogue.CRC8MIFAREMAD 0x99 0x00
         (list_byte_of_string "CRC8MIFAREMAD" ++ [xed]) 112;
  mk_row "CRC8ICODE" uint8 Catalogue.CRC8ICODE 0x7e 0x00
         (list_byte_of_string "CRC8ICODE" ++ [x1f]) 80;
  mk_row "CRC8HITAG" uint8 Catalogue.CRC8HITAG 0xb4 0x00
         (list_byte_of_string "CRC8HITAG" ++ [xc7]) 80;
  mk_row "CRC8SAEJ1850" uint8 Catalogue.CRC8SAEJ1850 0x4b 0xc4
         (list_byte_of_string "CRC8SAEJ1850" ++ [x7a]) 104;
  mk_row "CRC8TECH3250" uint8 Catalogue.CRC8TECH3250 0x97 0x00
         (list_byte_of_string "CRC8TECH3250" ++ [x41]) 104;
  mk_row "CRC8OPENSAFETY" uint8 Catalogue.CRC8OPENSAFETY 0x3e 0x00
         (list_byte_of_string "CRC8OPENSAFETY" ++ [x6e]) 120;
  mk_row "CRC8AUTOSAR" uint8 Catalogue.CRC8AUTOSAR 0xdf 0x42
         (list_byte_of_string "CRC8AUTOSAR" ++ [xa7]) 96;
  mk_row "CRC8NRSC5" uint8 Catalogue.CRC8NRSC5 0xf7 0x00
         (list_byte_of_string "CRC8NRSC5" ++ [x06]) 80;
  mk_row "CRC8MAXIMDOW" uint8 Catalogue.CRC8MAXIMDOW 0xa1 0x00
         (list_byte_of_string "CRC8MAXIMDOW" ++ [x99]) 104;
  mk_row "CRC8DARC" uint8 Catalogue.CRC8DARC 0x15 0x00
         (list_byte_of_string "CRC8DARC" ++ [x77]) 72;
  mk_row "CRC8GSMB" uint8 Catalogue.CRC8GSMB 0x94 0x53
         (list_byte_of_string "CRC8GSMB" ++ [x93]) 72;
  mk_row "CRC8LTE" uint8 Catalogue.CRC8LTE 0xea 0x00
         (list_byte_of_string "CRC8LTE" ++ [xe3]) 64;
  mk_row "CRC8CDMA2000" uint8 Catalogue.CRC8CDMA2000 0xda 0x00
         (list_byte_of_string "CRC8CDMA2000" ++ [xbd]) 104;
  mk_row "CRC8WCDMA" uint8 Catalogue.CRC8WCDMA 0x25 0x00
         (list_byte_of_string "CRC8WCDMA" ++ [xb1]) 80;
  mk_row "CRC8BLUETOOTH" uint8 Catalogue.CRC8BLUETOOTH 0x26 0x00
         (list_byte_of_string "CRC8BLUETOOTH" ++ [x44]) 112;
  mk_row "CRC8DVBS2" uint8 Catalogue.CRC8DVBS2 0xbc 0x00
         (list_byte_of_string "CRC8DVBS2" ++ [x92]) 80;
  mk_row "CRC10GSM" uint16 Catalogue.CRC10GSM 0x12a 0x0c6
         (list_byte_of_string "CRC10GSM" ++ [xb7; x40]) 74;
  mk_row "CRC10ATM" uint16 Catalogue.CRC10ATM 0x199 0x000
         (list_byte_of_string "CRC10ATM" ++ [xdd; x80]) 74;
  mk_row "CRC10CDMA2000" uint16 Catalogue.CRC10CDMA2000 0x233 0x000
         (list_byte_of_string "CRC10CDMA2000" ++ [xe7; xc0]) 114;
  mk_row "CRC11UMTS" uint16 Catalogue.CRC11UMTS 0x061 0x000
         (list_byte_of_string "CRC11UMTS" ++ [x8d; xc0]) 83;
  mk_row "CRC11FLEXRAY" uint16 Catalogue.CRC11FLEXRAY 0x5a3 0x000
         (list_byte_of_string "CRC11FLEXRAY" ++ [xc3; x20]) 107;
  mk_row "CRC12DECT" uint16 Catalogue.CRC12DECT 0xf5b 0x000
         (list_byte_of_string "CRC12DECT" ++ [xd4; x90]) 84;
  mk_row "CRC12UMTS" uint16 Catalogue.CRC12UMTS 0xdaf 0x000
         (list_byte_of_string "CRC12UMTS" ++ [x10; xd0]) 84;
  mk_row "CRC12GSM" uint16 Catalogue.CRC12GSM 0xb34 0x178
         (list_byte_of_string "CRC12GSM" ++ [xcd; x00]) 76;
  mk_row "CRC12CDMA2000" uint16 Catalogue.CRC12CDMA2000 0xd4d 0x000
         (list_byte_of_string "CRC12CDMA2000" ++ [x89; xf0]) 116;
  mk_row "CRC13BBC" uint16 Catalogue.CRC13BBC 0x04fa 0x0000
         (list_byte_of_string "CRC13BBC" ++ [x17; x68]) 77;
  mk_row "CRC14DARC" uint16 Catalogue.CRC14DARC 0x082d 0x0000
         (list_byte_of_string "CRC14DARC" ++ [x1c; x3f]) 86;
  mk_row "CRC14GSM" uint16 Catalogue.CRC14GSM 0x30ae 0x031e
         (list_byte_of_string "CRC14GSM" ++ [xd4; x54]) 78;
  mk_row "CRC15CAN" uint16 Catalogue.CRC15CAN 0x059e 0x0000
         (list_byte_of_string "CRC15CAN" ++ [x43; xf0]) 79;
  mk_row "CRC15MPT1327" uint16 Catalogue.CRC15MPT1327 0x2566 0x6815
         (list_byte_of_string "CRC15MPT1327" ++ [x07; xa0]) 111;
  mk_row "CRC16DECTX" uint16 Catalogue.CRC16DECTX 0x007f 0x0000
         (list_byte_of_string "CRC16DECTX" ++ [x6d; xa1]) 96;
  mk_row "CRC16DECTR" uint16 Catalogue.CRC16DECTR 0x007e 0x0589
         (list_byte_of_string "CRC16DECTR" ++ [x4a; xfa]) 96;
  mk_row "CRC16NRSC5" uint16 Catalogue.CRC16NRSC5 0xa066 0x0000
         (list_byte_of_string "CRC16NRSC5" ++ [x27; x25]) 96;
  mk_row "CRC16XMODEM" uint16 Catalogue.CRC16XMODEM 0x31c3 0x0000
         (list_byte_of_string "CRC16XMODEM" ++ [xd2; x98]) 104;
  mk_row "CRC16GSM" uint16 Catalogue.CRC16GSM 0xce3c 0x1d0f
         (list_byte_of_string "CRC16GSM" ++ [x18; xa9]) 80;
  mk_row "CRC16SPIFUJITSU" uint16 Catalogue.CRC16SPIFUJITSU 0xe5cc 0x0000
         (list_byte_of_string "CRC16SPIFUJITSU" ++ [x76; x77]) 136;
  mk_row "CRC16IBM3740" uint16 Catalogue.CRC16IBM3740 0x29b1 0x0000
         (list_byte_of_string "CRC16IBM3740" ++ [xd8; xfe]) 112;
  mk_row "CRC16GENIBUS" uint16 Catalogue.CRC16GENIBUS 0xd64e 0x1d0f
         (list_byte_of_string "CRC16GENIBUS" ++ [x4e; xe2]) 112;
  mk_row "CRC16KERMIT" uint16 Catalogue.CRC16KERMIT 0x2189 0x0000
         (list_byte_of_string "CRC16KERMIT" ++ [x31; x62]) 104;
  mk_row "CRC16TMS37157" uint16 Catalogue.CRC16TMS37157 0x26b1 0x0000
         (list_byte_of_string "CRC16TMS37157" ++ [xd6; xcb]) 120;
  mk_row "CRC16RIELLO" uint16 Catalogue.CRC16RIELLO 0x63d0 0x0000
         (list_byte_of_string "CRC16RIELLO" ++ [x8d; x09]) 104;
  mk_row "CRC16ISOIEC144433A" uint16 Catalogue.CRC16ISOIEC144433A 0xbf05 0x0000
         (list_byte_of_string "CRC16ISOIEC144433A" ++ [x07; xf5]) 160;
  mk_row "CRC16MCRF4XX" uint16 Catalogue.CRC16MCRF4XX 0x6f91 0x0000
         (list_byte_of_string "CRC16MCRF4XX" ++ [xa1; x37]) 112;
  mk_row "CRC16IBMSDLC" uint16 Catalogue.CRC16IBMSDLC 0x906e 0xf0b8
         (list_byte_of_string "CRC16IBMSDLC" ++ [x32; x0c]) 112;
  mk_row "CRC16PROFIBUS" uint16 Catalogue.CRC16PROFIBUS 0xa819 0xe394
         (list_byte_of_string "CRC16PROFIBUS" ++ [xf6; xe2]) 120;
  mk_row "CRC16EN13757" uint16 Catalogue.CRC16EN13757 0xc2b7 0xa366
         (list_byte_of_string "CRC16EN13757" ++ [xf9; x4b]) 112;
  mk_row "CRC16DNP" uint16 Catalogue.CRC16DNP 0xea82 0x66c5
         (list_byte_of_string "CRC16DNP" ++ [x6a; x2e]) 80;
  mk_row "CRC16OPENSAFETYA" uint16 Catalogue.CRC16OPENSAFETYA 0x5d38 0x0000
         (list_byte_of_string "CRC16OPENSAFETYA" ++ [xd7; x7b]) 144;
  mk_row "CRC16M17" uint16 Catalogue.CRC16M17 0x772b 0x0000
         (list_byte_of_string "CRC16M17" ++ [x10; xfd]) 80;
  mk_row "CRC16LJ1200" uint16 Catalogue.CRC16LJ1200 0xbdf4 0x0000
         (list_byte_of_string "CRC16LJ1200" ++ [x78; x9a]) 104;
  mk_row "CRC16OPENSAFETYB" uint16 Catalogue.CRC16OPENSAFETYB 0x20fe 0x0000
         (list_byte_of_string "CRC16OPENSAFETYB" ++ [x9c; xa9]) 144;
  mk_row "CRC16UMTS" uint16 Catalogue.CRC16UMTS 0xfee8 0x0000
         (list_byte_of_string "CRC16UMTS" ++ [xfd; xd4]) 88;
  mk_row "CRC16DDS110" uint16 Catalogue.CRC16DDS110 0x9ecf 0x0000
         (list_byte_of_string "CRC16DDS110" ++ [xfa; x81]) 104;
  mk_row "CRC16CMS" uint16 Catalogue.CRC16CMS 0xaee7 0x0000
         (list_byte_of_string "CRC16CMS" ++ [xf6; x04]) 80;
  mk_row "CRC16ARC" uint16 Catalogue.CRC16ARC 0xbb3d 0x0000
         (list_byte_of_string "CRC16ARC" ++ [x67; xda]) 80;
  mk_row "CRC16MAXIMDOW" uint16 Catalogue.CRC16MAXIMDOW 0x44c2 0xb001
         (list_byte_of_string "CRC16MAXIMDOW" ++ [x2f; x29]) 120;
  mk_row "CRC16MODBUS" uint16 Catalogue.CRC16MODBUS 0x4b37 0x0000
         (list_byte_of_string "CRC16MODBUS" ++ [xde; x98]) 104;
  mk_row "CRC16USB" uint16 Catalogue.CRC16USB 0xb4c8 0xb001
         (list_byte_of_string "CRC16USB" ++ [x58; x7a]) 80;
  mk_row "CRC16T10DIF" uint16 Catalogue.CRC16T10DIF 0xd0db 0x0000
         (list_byte_of_string "CRC16T10DIF" ++ [xef; xdb]) 104;
  mk_row "CRC16TELEDISK" uint16 Catalogue.CRC16TELEDISK 0x0fb3 0x0000
         (list_byte_of_string "CRC16TELEDISK" ++ [xae; x47]) 120;
  mk_row "CRC16CDMA2000" uint16 Catalogue.CRC16CDMA2000 0x4c06 0x0000
         (list_byte_of_string "CRC16CDMA2000" ++ [x0a; xd4]) 120;
  mk_row "CRC17CANFD" uint32 Catalogue.CRC17CANFD 0x04f03 0x00000
         (list_byte_of_string "CRC17CANFD" ++ [xdc; x32; x80]) 97;
  mk_row "CRC21CANFD" uint32 Catalogue.CRC21CANFD 0x0ed841 0x000000
         (list_byte_of_string "CRC21CANFD" ++ [xa1; x2e; xb8]) 101;
  mk_row "CRC24BLE" uint32 Catalogue.CRC24BLE 0xc25a56 0x000000
         (list_byte_of_string "CRC24BLE" ++ [x0f; xaa; x73]) 88;
  mk_row "CRC24INTERLAKEN" uint32 Catalogue.CRC24INTERLAKEN 0xb4f3e6 0x144e63
         (list_byte_of_string "CRC24INTERLAKEN" ++ [xbc; xba; xb3]) 144;
  mk_row "CRC24FLEXRAYB" uint32 Catalogue.CRC24FLEXRAYB 0x1f23b8 0x000000
         (list_byte_of_string "CRC24FLEXRAYB" ++ [x58; x60; xee]) 128;
  mk_row "CRC24FLEXRAYA" uint32 Catalogue.CRC24FLEXRAYA 0x7979bd 0x000000
         (list_byte_of_string "CRC24FLEXRAYA" ++ [xd1; xc3; x86]) 128;
  mk_row "CRC24LTEB" uint32 Catalogue.CRC24LTEB 0x23ef52 0x000000
         (list_byte_of_string "CRC24LTEB" ++ [x7a; xe3; x84]) 96;
  mk_row "CRC24OS9" uint32 Catalogue.CRC24OS9 0x200fa5 0x800fe3
         (list_byte_of_string "CRC24OS9" ++ [x7c; xa8; xfa]) 88;
  mk_row "CRC24LTEA" uint32 Catalogue.CRC24LTEA 0xcde703 0x000000
         (list_byte_of_string "CRC24LTEA" ++ [x7d; xd6; xab]) 96;
  mk_row "CRC24OPENPGP" uint32 Catalogue.CRC24OPENPGP 0x21cf02 0x000000
         (list_byte_of_string "CRC24OPENPGP" ++ [xf3; x27; x1c]) 120;
  mk_row "CRC30CDMA" uint32 Catalogue.CRC30CDMA 0x04c34abf 0x34efa55a
         (list_byte_of_string "CRC30CDMA" ++ [x90; x22; x68; x40]) 102;
  mk_row "CRC31PHILIPS" uint32 Catalogue.CRC31PHILIPS 0x0ce9e46c 0x4eaf26f1
         (list_byte_of_string "CRC31PHILIPS" ++ [x6f; x4c; x18; x12]) 127;
  mk_row "CRC32XFER" uint32 Catalogue.CRC32XFER 0xbd0be338 0x00000000
         (list_byte_of_string "CRC32XFER" ++ [x05; x9f; x1f; x5a]) 104;
  mk_row "CRC32CKSUM" uint32 Catalogue.CRC32CKSUM 0x765e7680 0xc704dd7b
         (list_byte_of_string "CRC32CKSUM" ++ [x25; x11; x59; x8e]) 112;
  mk_row "CRC32MPEG2" uint32 Catalogue.CRC32MPEG2 0x0376e6e7 0x00000000
         (list_byte_of_string "CRC32MPEG2" ++ [xa7; x88; xc2; x35]) 112;
  mk_row "CRC32BZIP2" uint32 Catalogue.CRC32BZIP2 0xfc891918 0xc704dd7b
         (list_byte_of_string "CRC32BZIP2" ++ [x89; xb4; x92; x46]) 112;
  mk_row "CRC32JAMCRC" uint32 Catalogue.CRC32JAMCRC 0x340bc6d9 0x00000000
         (list_byte_of_string "CRC32JAMCRC" ++ [xd9; x7c; x38; x02]) 120;
  mk_row "CRC32ISOHDLC" uint32 Catalogue.CRC32ISOHDLC 0xcbf43926 0xdebb20e3
         (list_byte_of_string "CRC32ISOHDLC" ++ [xb8; x13; x23; xa2]) 128;
  mk_row "CRC32ISCSI" uint32 Catalogue.CRC32ISCSI 0xe3069283 0xb798b438
         (list_byte_of_string "CRC32ISCSI" ++ [x0a; x79; xd9; x83]) 112;
  mk_row "CRC32MEF" uint32 Catalogue.CRC32MEF 0xd2c22f51 0x00000000
         (list_byte_of_string "CRC32MEF" ++ [x71; xdf; xd8; x1a]) 96;
  mk_row "CRC32CDROMEDC" uint32 Catalogue.CRC32CDROMEDC 0x6ec2edc4 0x00000000
         (list_byte_of_string "CRC32CDROMEDC" ++ [x6a; x5a; x59; x08]) 136;
  mk_row "CRC32AIXM" uint32 Catalogue.CRC32AIXM 0x3010bf7f 0x00000000
         (list_byte_of_string "CRC32AIXM" ++ [x1a; x65; x05; xe9]) 104;
  mk_row "CRC32BASE91D" uint32 Catalogue.CRC32BASE91D 0x87315576 0x45270551
         (list_byte_of_string "CRC32BASE91D" ++ [x03; xa4; x11; x22]) 128;
  mk_row "CRC32AUTOSAR" uint32 Catalogue.CRC32AUTOSAR 0x1697d06a 0x904cddbf
         (list_byte_of_string "CRC32AUTOSAR" ++ [x6a; xba; x71; xe2]) 128;
  mk_row "CRC40GSM" uint64 Catalogue.CRC40GSM 0xd4164fc646 0xc4ff8071ff
         (list_byte_of_string "CRC40GSM" ++ [xf9; xaf; x36; xf3; x87]) 104;
  mk_row "CRC64GOISO" uint64 Catalogue.CRC64GOISO 0xb90956c775a41001 0x5300000000000000
         (list_byte_of_string "CRC64GOISO" ++ [x31; x17; xc4; x07; xaa; x93; xd2; x72]) 144;
  mk_row "CRC64MS" uint64 Catalogue.CRC64MS 0x75d4b74f024eceea 0x0000000000000000
         (list_byte_of_string "CRC64MS" ++ [x21; x1d; x84; x0e; x43; x7d; xb9; xe9]) 120;
  mk_row "CRC64ECMA182" uint64 Catalogue.CRC64ECMA182 0x6c40df5f0b497347 0x0000000000000000
         (list_byte_of_string "CRC64ECMA182" ++ [x31; xec; x21; x1f; x0f; x40; x45; x36]) 160;
  mk_row "CRC64WE" uint64 Catalogue.CRC64WE 0x62ec59e3f1a4f00a 0xfcacbebd5931a992
         (list_byte_of_string "CRC64WE" ++ [x9d; x02; xc9; x5c; xfb; xfc; x70; x47]) 120;
  mk_row "CRC64XZ" uint64 Catalogue.CRC64XZ 0x995dc9bbdf1939fa 0x49958c9abd7d353f
         (list_byte_of_string "CRC64XZ" ++ [x40; x8a; xa6; xc4; x0f; x46; x7a; xd8]) 120;
  mk_row "CRC64REDIS" uint64 Catalogue.CRC64REDIS 0xe9c6d914c4b8d9ca 0x0000000000000000
         (list_byte_of_string "CRC64REDIS" ++ [xd0; x44; x4f; x6a; x77; x01; xbe; xa2]) 144
].

(** A result, or the failure of the step before. *)
Definition and_then {A B} (o : outcome A) (f : A -> outcome B) : outcome B :=
  match o with
  | Ret x => f x
  | Err e => Err e
  | Panic msg => Panic msg
  end.

(** [func Example()] of crc_test.go: the three values it prints, [usb1],
    [usb2] and [zoo/a2eb].  [panic(err)] on an error of [NewAlgo]. *)
Definition Example_test : outcome (Z * Z * Z) :=
  and_then Catalogue.CRC5USB (fun p =>
  let (usb1, p) := preset_Calc (list_byte_of_string "123456789") p in
  and_then usb1 (fun usb1 =>
  let (c, p) := preset_NewCRC p in
  and_then c (fun c =>
  let usb2 :=
    fst ((do_ UpdateBits (list_byte_of_string "12345") (8 * 4 + 2);
          do_ UpdateBits [x0d] 6;
          do_ Update (list_byte_of_string "6789");
          Final) c) in
  and_then usb2 (fun usb2 =>
  match NewAlgo uint16 16 0xa2eb 0xffff 0xffff true true with
  | Ret a => and_then (Calc a (list_byte_of_string "123456789")) (fun zoo =>
             Ret (usb1, usb2, zoo))
  | Err (errors_New msg) => Panic msg
  | Panic msg => Panic msg
  end)))).

(** A row whose codeword is the name of the preset followed by the CRC of
    the name as [crc_bytes] lays it out, with the bit length and the residue
    that go with it; rows of presets with [refin <> refout] are not
    looked at. *)
Definition row_is_codeword (p : test_row) : bool :=
  match row_preset p with
  | Ret pr =>
      match fst (preset_Algo pr) with
      | Ret (Some e) =>
          if negb (eqb (refin e) (refout e)) then true else
          let name := list_byte_of_string (row_name p) in
          match Calc e name with
          | Ret v =>
              bool_decide (byteZ <$> row_codeWord p = byteZ <$> (name ++ crc_bytes e v)%list) &&
              (row_codeWordBitLen p =? 8 * Z.of_nat (length name) + width e) &&
              (row_residue p =? codeword_residue e)
          | _ => false
          end
      | _ => false
      end
  | _ => false
  end.

(** An engine that tells apart any two inputs of the same length whose bits,
    in the order in which it consumes them, differ within a window of
    [width] bits: [b] is the difference within the window and [s] the
    position of the window. *)
Definition detects_bursts {T} (e : algo T) : Prop :=
  forall (A B : list byte) b s,
    length A = length B -> 0 <= s -> 0 < b < 2 ^ width e ->
    Z.lxor (input_value e A) (input_value e B) = Z.shiftl b s ->
    exists vA vB, Calc e A = Ret vA /\ Calc e B = Ret vB /\ vA <> vB.

(** A row whose preset is fresh, has an odd polynomial, and has parameters
    that [NewAlgo] accepts. *)
Definition row_polynomial_odd (p : test_row) : bool :=
  match row_preset p with
  | Ret pr =>
      negb (p_algoOnce pr) && Z.odd (p_poly pr) &&
      match NewAlgo (row_T p) (p_width pr) (p_poly pr) (p_init pr) (p_xorout pr)
                    (p_refin pr) (p_refout pr) with
      | Ret _ => true
      | _ => false
      end
  | _ => false
  end.

(** * Properties *)

(** ** Bit-level facts *)

Ltac bit_rewrite :=
  repeat first
    [ rewrite Z.lxor_spec | rewrite Z.land_spec | rewrite Z.lor_spec
    | rewrite Z.shiftr_spec by lia | rewrite Z.shiftl_spec by lia
    | rewrite Z.testbit_mod_pow2 by lia | rewrite Z.testbit_ones by lia
    | rewrite Z.bits_0 ].

Ltac bitwise i Hi := apply Z.bits_inj'; intros i Hi; bit_rewrite.

Lemma bitWidth_pos T : 8 <= bitWidth T <= 64.
Proof. destruct T; simpl; lia. Qed.

Lemma testbit_1 i : Z.testbit 1 i = (i =? 0).
Proof. change 1 with (2 ^ 0). rewrite Z.pow2_bits_eqb by lia. apply Z.eqb_sym. Qed.

Lemma testbit_wrap T z i : Z.testbit (wrap T z) i = (i <? bitWidth T) && Z.testbit z i.
Proof. unfold wrap. pose proof (bitWidth_pos T). apply Z.testbit_mod_pow2. lia. Qed.

Lemma wrap_range T z : inT T (wrap T z).
Proof. unfold inT, wrap. pose proof (bitWidth_pos T). apply Z.mod_pos_bound. lia. Qed.

Lemma wrap_small T z : inT T z -> wrap T z = z.
Proof. unfold inT, wrap. intros H. apply Z.mod_small. exact H. Qed.

Lemma byteZ_range b : 0 <= byteZ b < 256.
Proof. unfold byteZ. pose proof (Byte.to_N_bounded b). lia. Qed.

Lemma byteZ_of_Z z : byteZ (byte_of_Z z) = wrap uint8 z.
Proof.
  unfold byteZ, byte_of_Z. pose proof (wrap_range uint8 z) as Hz.
  unfold inT in Hz. change (2 ^ bitWidth uint8) with 256 in Hz.
  destruct (Byte.of_N (Z.to_N (wrap uint8 z))) as [b|] eqn:E.
  - apply Byte.to_of_N in E. simpl. rewrite E. lia.
  - apply Byte.of_N_None_iff in E. lia.
Qed.

(** ** Reflection *)

(** The state of the loop of [reflect] after [j] rounds. *)
Lemma reflect_rounds T val (j : nat) :
  Z.of_nat j + 1 <= bitWidth T ->
  let st := Nat.iter j (reflect_round T) (val, Z.land val 1) in
  fst st = Z.shiftr val (Z.of_nat j) /\
  forall i, 0 <= i ->
    Z.testbit (snd st) i = (i <=? Z.of_nat j) && Z.testbit val (Z.of_nat j - i).
Proof.
  induction j as [|j IH]; intros Hj.
  - simpl. split; [reflexivity|]. intros i Hi. bit_rewrite. rewrite testbit_1.
    destruct (Z.eqb_spec i 0) as [->|Hne]; [simpl; now rewrite andb_true_r|].
    rewrite andb_false_r. symmetry. apply andb_false_intro1, Z.leb_gt. lia.
  - destruct IH as [IH1 IH2]; [lia|].
    cbn zeta. rewrite Nat.iter_succ.
    set (st := Nat.iter j (reflect_round T) (val, Z.land val 1)) in *.
    unfold reflect_round; cbn [fst snd]. rewrite IH1. split.
    + rewrite Z.shiftr_shiftr by lia. f_equal. lia.
    + intros i Hi. unfold shl. bit_rewrite. rewrite testbit_wrap, testbit_1.
      bit_rewrite.
      destruct (Z.eqb_spec i 0) as [->|Hne].
      * rewrite (Z.testbit_neg_r _ (0 - 1)) by lia.
        rewrite andb_false_r, andb_true_r, orb_false_l.
        replace (0 <=? Z.of_nat (S j)) with true by (symmetry; apply Z.leb_le; lia).
        rewrite andb_true_l. f_equal. lia.
      * rewrite andb_false_r, orb_false_r. rewrite IH2 by lia.
        replace (Z.of_nat j - (i - 1)) with (Z.of_nat (S j) - i) by lia.
        destruct (Z.leb_spec i (Z.of_nat (S j))) as [Hle|Hgt].
        -- replace (i - 1 <=? Z.of_nat j) with true by (symmetry; apply Z.leb_le; lia).
           replace (i <? bitWidth T) with true by (symmetry; apply Z.ltb_lt; lia).
           reflexivity.
        -- replace (i - 1 <=? Z.of_nat j) with false by (symmetry; apply Z.leb_gt; lia).
           now rewrite andb_false_r.
Qed.

Lemma reflect_testbit T val numBits i :
  1 <= numBits <= bitWidth T -> 0 <= i ->
  Z.testbit (reflect T val numBits) i = (i <? numBits) && Z.testbit val (numBits - 1 - i).
Proof.
  intros Hn Hi. unfold reflect.
  destruct (reflect_rounds T val (Z.to_nat (numBits - 1))) as [_ H]; [lia|].
  rewrite H by exact Hi. rewrite Z2Nat.id by lia.
  destruct (Z.leb_spec i (numBits - 1)), (Z.ltb_spec i numBits); try lia; reflexivity.
Qed.

(** ** Tables filled by a loop *)

Lemma filled_length (f : Z -> Z) (l : list Z) (tbl : list Z) :
  length (foldl (fun tbl i => <[Z.to_nat i := f i]> tbl) tbl l) = length tbl.
Proof.
  revert tbl. induction l as [|x l IH]; intros tbl; cbn [foldl]; [reflexivity|].
  rewrite IH. apply length_insert.
Qed.

(** A loop that assigns [tbl[i] = f i] for the indices of [l] leaves the
    table with [f k] at the indices it visited. *)
Lemma filled_index (f : Z -> Z) (l : list Z) (tbl : list Z) (k : Z) :
  (forall i, i ∈ l -> 0 <= i) -> 0 <= k -> (Z.to_nat k < length tbl)%nat ->
  index (foldl (fun tbl i => <[Z.to_nat i := f i]> tbl) tbl l) k =
  if bool_decide (k ∈ l) then f k else index tbl k.
Proof.
  intros Hl Hk Hlen. induction l as [|i l IH] using rev_ind.
  - case_bool_decide as Hin; [|reflexivity]. now apply elem_of_nil in Hin.
  - rewrite foldl_snoc.
    pose proof (filled_length f l tbl) as Hlen'.
    assert (Hi : 0 <= i).
    { apply Hl. apply elem_of_app. right. apply list_elem_of_singleton. reflexivity. }
    unfold index in *. destruct (decide (i = k)) as [->|Hne].
    + rewrite list_lookup_insert_eq by lia. clear IH.
      case_bool_decide as Hin; [reflexivity|]. exfalso. apply Hin.
      apply elem_of_app. right. apply list_elem_of_singleton. reflexivity.
    + rewrite list_lookup_insert_ne by (intros E; apply Hne, Z2Nat.inj; assumption).
      rewrite IH by (intros j Hj; apply Hl, elem_of_app; left; exact Hj). clear IH.
      case_bool_decide as H1; case_bool_decide as H2; try reflexivity; exfalso.
      * apply H2, elem_of_app. now left.
      * apply elem_of_app in H2 as [Hin|Hin]; [contradiction|].
        apply list_elem_of_singleton in Hin. congruence.
Qed.

(** The byte-reflection table holds [reflect(b, 8)] at every byte [b]. *)
Lemma reflectedBytes_index (b : byte) :
  index reflectedBytes (byteZ b) = reflect uint8 (byteZ b) 8.
Proof.
  pose proof (byteZ_range b) as Hb. unfold reflectedBytes.
  rewrite (filled_index (fun i => reflect uint8 i 8)).
  - case_bool_decide as Hnin; [reflexivity|].
    assert (byteZ b = 0) as ->.
    { destruct (decide (byteZ b = 0)) as [E|E]; [exact E|].
      exfalso. apply Hnin. apply elem_of_seqZ. lia. }
    reflexivity.
  - intros i Hi. apply elem_of_seqZ in Hi. lia.
  - lia.
  - rewrite length_replicate. lia.
Qed.

Lemma reflectedBytes_testbit (b : byte) i :
  0 <= i ->
  Z.testbit (index reflectedBytes (byteZ b)) i = (i <? 8) && Z.testbit (byteZ b) (7 - i).
Proof.
  intros Hi. rewrite reflectedBytes_index, reflect_testbit by (simpl; lia).
  reflexivity.
Qed.

(** ** The shift register *)

Section Register.

Context {T : UInt} (a : algo T).

Lemma land_1 r : Z.land r 1 = if Z.odd r then 1 else 0.
Proof.
  change 1 with (Z.ones 1) at 1. rewrite Z.land_ones by lia.
  rewrite <- Z.bit0_mod, Z.bit0_odd. now destruct (Z.odd r).
Qed.

(** A round of the register is a shift and a conditional xor. *)
Lemma bit_round_odd r :
  bit_round a r = Z.lxor (Z.shiftr r 1) (if Z.odd r then refPoly a else 0).
Proof.
  unfold bit_round. rewrite land_1. destruct (Z.odd r); simpl; [reflexivity|].
  now rewrite Z.lxor_0_r.
Qed.

(** A round distributes over xor. *)
Lemma bit_round_lxor x y :
  bit_round a (Z.lxor x y) = Z.lxor (bit_round a x) (bit_round a y).
Proof.
  rewrite !bit_round_odd, Z.shiftr_lxor.
  rewrite <- !Z.bit0_odd, Z.lxor_spec.
  destruct (Z.testbit x 0), (Z.testbit y 0); simpl;
    rewrite ?Z.lxor_0_r; bitwise i Hi;
    destruct (Z.testbit x (i + 1)), (Z.testbit y (i + 1)), (Z.testbit (refPoly a) i);
    reflexivity.
Qed.

Lemma rounds_lxor (n : nat) x y :
  Nat.iter n (bit_round a) (Z.lxor x y) =
  Z.lxor (Nat.iter n (bit_round a) x) (Nat.iter n (bit_round a) y).
Proof.
  induction n as [|n IH]; [reflexivity|].
  rewrite !Nat.iter_succ, IH. apply bit_round_lxor.
Qed.

(** Rounds over zero bits only shift. *)
Lemma rounds_shift (n : nat) y :
  (forall i, 0 <= i < Z.of_nat n -> Z.testbit y i = false) ->
  Nat.iter n (bit_round a) y = Z.shiftr y (Z.of_nat n).
Proof.
  induction n as [|n IH]; intros Hy.
  - simpl. now rewrite Z.shiftr_0_r.
  - rewrite Nat.iter_succ, IH by (intros i Hi; apply Hy; lia).
    rewrite bit_round_odd, <- Z.bit0_odd, Z.shiftr_spec by lia.
    rewrite Hy by lia. rewrite Z.lxor_0_r, Z.shiftr_shiftr by lia.
    f_equal. lia.
Qed.

Lemma rounds_add (n m : nat) r :
  Nat.iter (n + m) (bit_round a) r = Nat.iter m (bit_round a) (Nat.iter n (bit_round a) r).
Proof. rewrite Nat.add_comm. apply Nat.iter_add. Qed.

Lemma inbyte_testbit b i :
  0 <= i ->
  Z.testbit (inbyte a b) i =
  (i <? 8) && Z.testbit (byteZ b) (if refin a then i else 7 - i).
Proof.
  intros Hi. unfold inbyte. destruct (refin a); simpl.
  - destruct (Z.ltb_spec i 8); [reflexivity|].
    pose proof (byteZ_range b) as Hb.
    apply (Z.bounded_iff_bits_nonneg 8); lia.
  - apply reflectedBytes_testbit, Hi.
Qed.

Lemma inbyte_range b : 0 <= inbyte a b < 256.
Proof.
  unfold inbyte. destruct (refin a); simpl; [apply byteZ_range|].
  rewrite reflectedBytes_index.
  apply (Z.bounded_iff_bits_nonneg' 8); [lia| |].
  - apply Z.bits_iff_nonneg_ex. exists 8. intros m Hm.
    rewrite reflect_testbit by (simpl; lia).
    apply andb_false_intro1, Z.ltb_ge. lia.
  - intros l Hl. rewrite reflect_testbit by (simpl; lia).
    apply andb_false_intro1, Z.ltb_ge. lia.
Qed.

(** With a table as [NewAlgo] fills it, a table-driven step is eight
    bit-by-bit rounds. *)
Lemma tbl_round_rounds reg b :
  table_ok a -> tbl_round a reg b = Nat.iter 8 (bit_round a) (Z.lxor reg (inbyte a b)).
Proof.
  intros Htbl. unfold tbl_round. fold (inbyte a b).
  pose proof (inbyte_range b) as Hb.
  assert (Hsplit : Z.lxor reg (inbyte a b) =
            Z.lxor (Z.lxor (wrap uint8 reg) (inbyte a b)) (Z.shiftl (Z.shiftr reg 8) 8)).
  { bitwise i Hi. rewrite testbit_wrap. simpl bitWidth.
    destruct (Z.ltb_spec i 8).
    - rewrite (Z.testbit_neg_r _ (i - 8)) by lia. now rewrite xorb_false_r.
    - rewrite Z.shiftr_spec by lia. replace (i - 8 + 8) with i by lia. simpl.
      rewrite (proj1 (Z.bounded_iff_bits_nonneg 8 (inbyte a b) ltac:(lia) ltac:(lia)))
        by lia.
      now destruct (Z.testbit reg i). }
  rewrite Hsplit, rounds_lxor. f_equal.
  - apply Htbl.
    apply (Z.bounded_iff_bits_nonneg' 8); [lia| |].
    + apply Z.lxor_nonneg. pose proof (wrap_range uint8 reg) as Hw. unfold inT in Hw.
      simpl in Hw. lia.
    + intros l Hl. rewrite Z.lxor_spec, testbit_wrap. simpl bitWidth.
      rewrite (proj1 (Z.bounded_iff_bits_nonneg 8 (inbyte a b) ltac:(lia) ltac:(lia)))
        by lia.
      rewrite (proj2 (Z.ltb_ge l 8)) by lia. reflexivity.
  - rewrite rounds_shift.
    + change (Z.of_nat 8) with 8. rewrite Z.shiftr_shiftl_l by lia.
      now rewrite Z.shiftl_0_r.
    + intros i Hi. apply Z.shiftl_spec_low. lia.
Qed.

End Register.

(** ** The bit-by-bit update *)

Lemma byte_mask (n : Z) : 0 <= n <= 8 -> sub uint8 (shl uint8 1 n) 1 = Z.ones n.
Proof.
  intros Hn.
  assert (n = 0 \/ n = 1 \/ n = 2 \/ n = 3 \/ n = 4 \/ n = 5 \/ n = 6 \/ n = 7 \/ n = 8)
    as H by lia.
  repeat (destruct H as [->|H]; [reflexivity|]). subst n. reflexivity.
Qed.

Lemma bbbUpd_rounds {T} (a : algo T) reg b n :
  0 <= n <= 8 ->
  bbbUpd a reg b n =
  Nat.iter (Z.to_nat n) (bit_round a) (Z.lxor reg (Z.land (inbyte a b) (Z.ones n))).
Proof. intros Hn. unfold bbbUpd. fold (inbyte a b). now rewrite byte_mask. Qed.

Lemma inbyte_land_ones8 {T} (a : algo T) b : Z.land (inbyte a b) (Z.ones 8) = inbyte a b.
Proof.
  rewrite Z.land_ones by lia. apply Z.mod_small. apply inbyte_range.
Qed.

Lemma bbbUpd_8 {T} (a : algo T) reg b :
  bbbUpd a reg b 8 = Nat.iter 8 (bit_round a) (Z.lxor reg (inbyte a b)).
Proof. rewrite bbbUpd_rounds by lia. now rewrite inbyte_land_ones8. Qed.

(** Over a table as [NewAlgo] fills it, the table-driven step and the
    bit-by-bit update of a whole byte agree. *)
Lemma tbl_round_bbbUpd {T} (a : algo T) reg b :
  table_ok a -> tbl_round a reg b = bbbUpd a reg b 8.
Proof. intros H. now rewrite tbl_round_rounds, bbbUpd_8. Qed.

(** ** Engine construction *)

(** The loop of [NewAlgo] writes the table and nothing else, and what it
    writes does not depend on the entries written before. *)
Lemma fill_loop {T} (l : list Z) (a : algo T) :
  foldl (fun a i => set_table a i (bbbUpd a (wrap T i) x00 8)) a l =
  mk_algo (width a) (refPoly a) (refInit a) (xorout a) (refin a) (refout a)
          (foldl (fun tbl i => <[Z.to_nat i := bbbUpd a (wrap T i) x00 8]> tbl)
                 (table a) l).
Proof.
  revert a. induction l as [|i l IH]; intros a.
  - now destruct a.
  - cbn [foldl]. rewrite IH. reflexivity.
Qed.

Lemma fill_table_fields {T} (a : algo T) :
  width (fill_table a) = width a /\ refPoly (fill_table a) = refPoly a /\
  refInit (fill_table a) = refInit a /\ xorout (fill_table a) = xorout a /\
  refin (fill_table a) = refin a /\ refout (fill_table a) = refout a.
Proof. unfold fill_table. rewrite fill_loop. cbn [width refPoly refInit xorout refin refout]. tauto. Qed.

Lemma bbbUpd_x00 {T} (a : algo T) reg : bbbUpd a reg x00 8 = Nat.iter 8 (bit_round a) reg.
Proof.
  rewrite bbbUpd_8. f_equal.
  assert (inbyte a x00 = 0) as ->; [|apply Z.lxor_0_r].
  unfold inbyte. now destruct (refin a).
Qed.

Lemma fill_table_index {T} (a : algo T) k :
  table a = replicate 256 0 -> 0 <= k < 256 ->
  index (table (fill_table a)) k = Nat.iter 8 (bit_round a) k.
Proof.
  intros Htbl Hk. unfold fill_table. rewrite fill_loop. cbn [table].
  rewrite (filled_index (fun i => bbbUpd a (wrap T i) x00 8)).
  - case_bool_decide as Hin.
    + rewrite bbbUpd_x00. f_equal. apply wrap_small. unfold inT.
      pose proof (bitWidth_pos T).
      assert (2 ^ 8 <= 2 ^ bitWidth T) by (apply Z.pow_le_mono_r; lia). lia.
    + assert (k = 0) as ->.
      { destruct (decide (k = 0)) as [E|E]; [exact E|].
        exfalso. apply Hin. apply elem_of_seqZ. lia. }
      rewrite Htbl, (rounds_shift a 8 0) by (intros; apply Z.bits_0).
      reflexivity.
  - intros i Hi. apply elem_of_seqZ in Hi. lia.
  - lia.
  - rewrite Htbl, length_replicate. lia.
Qed.

Lemma bit_round_ext {T} (a a' : algo T) r :
  refPoly a' = refPoly a -> bit_round a' r = bit_round a r.
Proof. unfold bit_round. now intros ->. Qed.

Lemma rounds_ext {T} (a a' : algo T) n r :
  refPoly a' = refPoly a -> Nat.iter n (bit_round a') r = Nat.iter n (bit_round a) r.
Proof.
  intros H. induction n as [|n IH]; [reflexivity|].
  rewrite !Nat.iter_succ, IH. now apply bit_round_ext.
Qed.

(** Every engine that [NewAlgo] returns has a well-filled table. *)
Lemma NewAlgo_table_ok {T} width poly init xorout refin refout (a : algo T) :
  NewAlgo T width poly init xorout refin refout = Ret a -> table_ok a.
Proof.
  unfold NewAlgo. destruct (checkParams T width poly init xorout); [discriminate|].
  set (a0 := mk_algo _ _ _ _ _ _ _). intros H k Hk.
  assert (a = fill_table a0) as -> by congruence.
  rewrite fill_table_index by (reflexivity || exact Hk).
  symmetry. apply rounds_ext. now destruct (fill_table_fields a0) as (_ & E & _).
Qed.

Lemma NewAlgo_table_length {T} width poly init xorout refin refout (a : algo T) :
  NewAlgo T width poly init xorout refin refout = Ret a -> length (table a) = 256%nat.
Proof.
  unfold NewAlgo. destruct (checkParams T width poly init xorout); [discriminate|].
  set (a0 := mk_algo _ _ _ _ _ _ _). intros H.
  assert (a = fill_table a0) as -> by congruence.
  unfold fill_table. rewrite fill_loop. cbn [table].
  rewrite (filled_length (fun i => bbbUpd a0 (wrap T i) x00 8)).
  apply length_replicate.
Qed.

(** ** Splitting a byte between two bit-by-bit updates *)

Ltac split_ltb :=
  repeat match goal with
  | |- context [?x <? ?y] => destruct (Z.ltb_spec x y)
  | |- context [?x <=? ?y] => destruct (Z.leb_spec x y)
  end.

Lemma rest_byte_bits {T} (a : algo T) b k :
  1 <= k <= 7 ->
  Z.land (inbyte a (rest_byte a b k)) (Z.ones (8 - k)) = Z.shiftr (inbyte a b) k.
Proof.
  intros Hk. bitwise i Hi. rewrite !inbyte_testbit by lia.
  unfold rest_byte. rewrite byteZ_of_Z, testbit_wrap. simpl bitWidth.
  destruct (refin a).
  - split_ltb; try lia; simpl; rewrite ?andb_false_r, ?andb_true_r; try reflexivity.
    now rewrite Z.shiftr_spec by lia.
  - split_ltb; try lia; simpl; rewrite ?andb_false_r, ?andb_true_r; try reflexivity.
    rewrite Z.shiftl_spec by lia. f_equal. lia.
Qed.

Lemma low_high_bits x k :
  0 <= k -> Z.lxor (Z.land x (Z.ones k)) (Z.shiftl (Z.shiftr x k) k) = x.
Proof.
  intros Hk. bitwise i Hi. split_ltb; try lia; simpl.
  - rewrite (Z.testbit_neg_r _ (i - k)) by lia.
    now rewrite andb_true_r, xorb_false_r.
  - rewrite Z.shiftr_spec by lia. rewrite andb_false_r. simpl. f_equal. lia.
Qed.

(** Consuming the first [k] bits of a byte and then its last [8 - k] bits
    is consuming the byte. *)
Lemma bbbUpd_split {T} (a : algo T) reg b k :
  1 <= k <= 7 ->
  bbbUpd a (bbbUpd a reg b k) (rest_byte a b k) (8 - k) = bbbUpd a reg b 8.
Proof.
  intros Hk. rewrite bbbUpd_8, !bbbUpd_rounds by lia.
  rewrite rest_byte_bits by lia.
  set (ib := inbyte a b).
  assert (Hhigh : Z.shiftr ib k =
                  Nat.iter (Z.to_nat k) (bit_round a) (Z.shiftl (Z.shiftr ib k) k)).
  { rewrite rounds_shift.
    - rewrite Z2Nat.id, Z.shiftr_shiftl_l, Z.sub_diag by lia. now rewrite Z.shiftl_0_r.
    - intros i Hi. apply Z.shiftl_spec_low. lia. }
  rewrite Hhigh at 1. rewrite <- rounds_lxor, Z.lxor_assoc, low_high_bits by lia.
  rewrite <- rounds_add. f_equal. lia.
Qed.

(** ** The table-driven update *)

Section TableUpdate.

Context {T : UInt} (a : algo T).

(** A negative [bitLen] consumes the whole buffer. *)
Lemma tblUpd_whole reg data bitLen :
  bitLen < 0 -> tblUpd a reg data bitLen = Ret (foldl (tbl_round a) reg data).
Proof.
  intros Hneg. unfold tblUpd.
  rewrite (proj2 (Z.ltb_lt bitLen 0)) by exact Hneg.
  rewrite Z.ltb_irrefl, Nat2Z.id, firstn_all. reflexivity.
Qed.

(** A [bitLen] beyond the buffer panics. *)
Lemma tblUpd_beyond reg data bitLen :
  8 * Z.of_nat (length data) < bitLen -> tblUpd a reg data bitLen = Panic bitLen_msg.
Proof.
  intros Hlen. unfold tblUpd.
  rewrite (proj2 (Z.ltb_ge bitLen 0)) by lia.
  rewrite Z.shiftl_mul_pow2 by lia. change (2 ^ 3) with 8.
  rewrite (proj2 (Z.ltb_lt _ bitLen)) by lia. reflexivity.
Qed.

(** A [bitLen] of [n] bytes and [k] bits inside the buffer consumes [n]
    bytes through the table and [k] bits of the next byte bit by bit. *)
Lemma tblUpd_bits reg data n k :
  0 <= n -> 0 <= k < 8 -> 8 * n + k <= 8 * Z.of_nat (length data) ->
  tblUpd a reg data (8 * n + k) =
  let r := foldl (tbl_round a) reg (take (Z.to_nat n) data) in
  if 0 <? k then
    match data !! Z.to_nat n with
    | Some b => Ret (bbbUpd a r b k)
    | None => Panic "index out of range"
    end
  else Ret r.
Proof.
  intros Hn Hk Hlen. unfold tblUpd.
  rewrite (proj2 (Z.ltb_ge (8 * n + k) 0)) by lia.
  rewrite Z.shiftl_mul_pow2 by lia. change (2 ^ 3) with 8.
  rewrite (proj2 (Z.ltb_ge _ (8 * n + k))) by lia.
  assert (Z.shiftr (8 * n + k) 3 = n) as ->.
  { rewrite Z.shiftr_div_pow2 by lia. change (2 ^ 3) with 8.
    symmetry. apply (Z.div_unique _ _ _ k); lia. }
  assert (Z.land (8 * n + k) 7 = k) as ->.
  { change 7 with (Z.ones 3). rewrite Z.land_ones by lia. change (2 ^ 3) with 8.
    symmetry. apply (Z.mod_unique _ _ n); lia. }
  rewrite (proj2 (Z.ltb_ge _ n)) by lia. reflexivity.
Qed.

(** Inside the buffer the update returns: neither the slice expression nor
    the index expression is out of range. *)
Lemma tblUpd_returns reg data bitLen :
  bitLen <= 8 * Z.of_nat (length data) -> exists r, tblUpd a reg data bitLen = Ret r.
Proof.
  intros Hlen. destruct (Z.ltb_spec bitLen 0) as [Hneg|Hpos].
  - eexists. now apply tblUpd_whole.
  - rewrite (Z.div_mod bitLen 8) in Hlen |- * by lia.
    pose proof (Z.mod_pos_bound bitLen 8 ltac:(lia)) as Hk.
    assert (0 <= bitLen / 8) as Hn by (apply Z.div_pos; lia).
    rewrite tblUpd_bits by lia. cbn zeta.
    destruct (Z.ltb_spec 0 (bitLen mod 8)) as [Hbits|_]; [|eexists; reflexivity].
    destruct (data !! Z.to_nat (bitLen / 8)) as [b|] eqn:E; [eexists; reflexivity|].
    apply lookup_ge_None in E. lia.
Qed.

(** [n] whole bytes and [k] bits of the byte that follows them. *)
Lemma tblUpd_partial reg pre b rest k :
  1 <= k <= 7 ->
  tblUpd a reg (pre ++ b :: rest) (8 * Z.of_nat (length pre) + k) =
  Ret (bbbUpd a (foldl (tbl_round a) reg pre) b k).
Proof.
  intros Hk. rewrite tblUpd_bits; [|lia|lia|rewrite length_app; simpl; lia].
  cbn zeta. rewrite (proj2 (Z.ltb_lt 0 k)) by lia.
  rewrite Nat2Z.id, take_app_length, list_lookup_middle by reflexivity.
  reflexivity.
Qed.

End TableUpdate.

(** ** Running session methods *)

Section Run.

Context {T : UInt}.

Lemma UpdateBits_run data bitLen (c : crc T) :
  UpdateBits data bitLen c =
  match tblUpd (a c) (reg c) data bitLen with
  | Ret r => (Ret tt, mk_crc (a c) r)
  | Err e => (Err e, c)
  | Panic msg => (Panic msg, c)
  end.
Proof.
  unfold UpdateBits, bind, get, call, set_reg.
  now destruct (tblUpd (a c) (reg c) data bitLen).
Qed.

Lemma Update_run data (c : crc T) :
  Update data c = (Ret tt, mk_crc (a c) (foldl (tbl_round (a c)) (reg c) data)).
Proof.
  unfold Update, bind, get, call, set_reg. now rewrite tblUpd_whole by lia.
Qed.

Lemma Residue_run (c : crc T) :
  Residue c =
  (Ret (if refout (a c) then reg c else reflect T (reg c) (width (a c))), c).
Proof. unfold Residue, bind, get, ret. now destruct (refout (a c)). Qed.

Lemma Final_run (c : crc T) :
  Final c =
  (Ret (Z.lxor (if refout (a c) then reg c else reflect T (reg c) (width (a c)))
               (xorout (a c))), c).
Proof. unfold Final, bind. rewrite Residue_run. reflexivity. Qed.

End Run.

(** ** The register stays a value of [T]

    The model writes [^], [&] and [>>] without wrap-around; this is what Go
    computes as long as the operands are values of [T], which the lemmas
    below establish for every register a session can hold. *)

Lemma range_bits n z :
  0 <= n -> (0 <= z < 2 ^ n <-> 0 <= z /\ forall i, n <= i -> Z.testbit z i = false).
Proof.
  intros Hn. split.
  - intros Hz. split; [lia|]. apply Z.bounded_iff_bits_nonneg; lia.
  - intros [Hz Hbits]. split; [exact Hz|].
    apply (Z.bounded_iff_bits_nonneg n); assumption.
Qed.

Lemma lxor_range n x y :
  0 <= n -> 0 <= x < 2 ^ n -> 0 <= y < 2 ^ n -> 0 <= Z.lxor x y < 2 ^ n.
Proof.
  intros Hn Hx Hy. apply range_bits in Hx as [Hx Hxb], Hy as [Hy Hyb]; try exact Hn.
  apply range_bits; [exact Hn|]. split; [now apply Z.lxor_nonneg|].
  intros i Hi. now rewrite Z.lxor_spec, Hxb, Hyb.
Qed.

Lemma shiftr_range n x k :
  0 <= n -> 0 <= k -> 0 <= x < 2 ^ n -> 0 <= Z.shiftr x k < 2 ^ n.
Proof.
  intros Hn Hk Hx. apply range_bits in Hx as [Hx Hxb]; try exact Hn.
  apply range_bits; [exact Hn|]. split; [now apply Z.shiftr_nonneg|].
  intros i Hi. rewrite Z.shiftr_spec by lia. apply Hxb. lia.
Qed.

Lemma inT_byte T z : 0 <= z < 256 -> inT T z.
Proof.
  intros Hz. unfold inT. pose proof (bitWidth_pos T).
  assert (2 ^ 8 <= 2 ^ bitWidth T) by (apply Z.pow_le_mono_r; lia). lia.
Qed.

Lemma reflect_inT T val numBits : inT T (reflect T val numBits).
Proof.
  unfold reflect. pose proof (bitWidth_pos T) as Hw.
  assert (H01 : forall v, 0 <= Z.land v 1 < 2).
  { intros v. rewrite land_1. destruct (Z.odd v); lia. }
  destruct (Z.to_nat (numBits - 1)) as [|j].
  - change (inT T (Z.land val 1)). apply inT_byte. specialize (H01 val). lia.
  - rewrite Nat.iter_succ. unfold reflect_round at 1. cbn [snd].
    set (x := shl T _ 1). set (v := Z.shiftr _ 1).
    assert (Hx : inT T x) by apply wrap_range.
    unfold inT in *. apply range_bits in Hx as [Hx Hxb]; [|lia].
    apply range_bits; [lia|]. split.
    + apply Z.lor_nonneg. specialize (H01 v). lia.
    + intros i Hi. rewrite Z.lor_spec, Hxb by lia. rewrite Z.land_spec, testbit_1.
      rewrite (proj2 (Z.eqb_neq i 0)) by lia. now rewrite andb_false_r.
Qed.

Section RegisterRange.

Context {T : UInt} (e : algo T).
Hypothesis refPoly_inT : inT T (refPoly e).

Lemma bit_round_inT r : inT T r -> inT T (bit_round e r).
Proof.
  intros Hr. pose proof (bitWidth_pos T). unfold inT in *. rewrite bit_round_odd.
  apply lxor_range; [lia| |destruct (Z.odd r); [assumption|]].
  - apply shiftr_range; lia.
  - split; [lia|]. apply Z.pow_pos_nonneg; lia.
Qed.

Lemma rounds_inT n r : inT T r -> inT T (Nat.iter n (bit_round e) r).
Proof.
  intros Hr. induction n as [|n IH]; [exact Hr|].
  rewrite Nat.iter_succ. now apply bit_round_inT.
Qed.

Lemma bbbUpd_inT r b n : 0 <= n <= 8 -> inT T r -> inT T (bbbUpd e r b n).
Proof.
  intros Hn Hr. rewrite bbbUpd_rounds by exact Hn. apply rounds_inT.
  pose proof (bitWidth_pos T). unfold inT in *.
  apply lxor_range; [lia|exact Hr|]. apply inT_byte.
  rewrite Z.land_ones by lia. pose proof (inbyte_range e b) as Hb.
  pose proof (Z.mod_pos_bound (inbyte e b) (2 ^ n) ltac:(apply Z.pow_pos_nonneg; lia)).
  assert (2 ^ n <= 2 ^ 8) by (apply Z.pow_le_mono_r; lia). lia.
Qed.

Lemma tbl_round_inT r b : table_ok e -> inT T r -> inT T (tbl_round e r b).
Proof.
  intros Htbl Hr. rewrite tbl_round_bbbUpd by exact Htbl. apply bbbUpd_inT; [lia|exact Hr].
Qed.

Lemma tblUpd_inT r data bitLen r' :
  table_ok e -> inT T r -> tblUpd e r data bitLen = Ret r' -> inT T r'.
Proof.
  intros Htbl Hr.
  assert (Hfold : forall l r0, inT T r0 -> inT T (foldl (tbl_round e) r0 l)).
  { induction l as [|b l IH]; intros r0 Hr0; cbn [foldl]; [exact Hr0|].
    apply IH. now apply tbl_round_inT. }
  destruct (Z.ltb_spec bitLen 0) as [Hneg|Hpos].
  { rewrite tblUpd_whole by exact Hneg. intros [= <-]. now apply Hfold. }
  destruct (Z.le_gt_cases bitLen (8 * Z.of_nat (length data))) as [Hin|Hout].
  2:{ rewrite tblUpd_beyond by exact Hout. discriminate. }
  rewrite (Z.div_mod bitLen 8) in Hin |- * by lia.
  pose proof (Z.mod_pos_bound bitLen 8 ltac:(lia)) as Hk.
  assert (0 <= bitLen / 8) as Hn by (apply Z.div_pos; lia).
  rewrite tblUpd_bits by lia. cbn zeta.
  destruct (0 <? bitLen mod 8).
  - destruct (data !! Z.to_nat (bitLen / 8)); [|discriminate].
    intros [= <-]. apply bbbUpd_inT; [lia|]. now apply Hfold.
  - intros [= <-]. now apply Hfold.
Qed.

End RegisterRange.

(** What [NewAlgo] stores in the engine: the width, the reflected
    polynomial and initial value, and [xorout] and the flags as given. *)
Lemma NewAlgo_fields {T} w poly init xo ri ro (e : algo T) :
  NewAlgo T w poly init xo ri ro = Ret e ->
  width e = w /\
  refPoly e = reflect T poly w /\
  refInit e = reflect T init w /\
  xorout e = xo /\
  refin e = ri /\
  refout e = ro.
Proof.
  unfold NewAlgo. destruct (checkParams T w poly init xo); [discriminate|].
  set (a0 := mk_algo _ _ _ _ _ _ _). intros H.
  assert (e = fill_table a0) as -> by congruence.
  exact (fill_table_fields a0).
Qed.

(** Every engine that [NewAlgo] returns holds values of [T], a fresh session
    starts from a value of [T], and every update of a session whose register
    is a value of [T] leaves a value of [T] in it. *)
Lemma registers_inT {T} width poly init xorout refin refout (e : algo T) :
  NewAlgo T width poly init xorout refin refout = Ret e ->
  inT T (refPoly e) /\
  (forall k, 0 <= k < 256 -> inT T (index (table e) k)) /\
  inT T (reg (NewCRC e)) /\
  (forall r data bitLen,
     inT T r -> inT T (reg (snd (UpdateBits data bitLen (mk_crc e r))))).
Proof.
  intros Hnew. pose proof (NewAlgo_table_ok _ _ _ _ _ _ _ Hnew) as Htbl.
  destruct (NewAlgo_fields _ _ _ _ _ _ _ Hnew) as (_ & HP & HI & _).
  assert (HinP : inT T (refPoly e)) by (rewrite HP; apply reflect_inT).
  split; [exact HinP|]. split; [|split].
  - intros k Hk. rewrite Htbl by exact Hk. apply rounds_inT; [exact HinP|].
    apply inT_byte. exact Hk.
  - cbn [NewCRC reg]. rewrite HI. apply reflect_inT.
  - intros r data bitLen Hr. rewrite UpdateBits_run. cbn [a reg].
    destruct (tblUpd e r data bitLen) as [r'| |] eqn:E; cbn [snd reg]; try exact Hr.
    eapply tblUpd_inT; eauto.
Qed.

(** * The claims *)

(** ** Catalogue values *)

(** The check values of the test table of the package ([crc_test.go]) for
    three presets, and the residue of CRC-3/GSM over its 59-bit codeword. *)
Example check_CRC8SMBUS : with_algo CRC8SMBUS (fun a => Calc a check_input) = Ret 0xf4.
Proof. vm_compute. reflexivity. Qed.

Example check_CRC3GSM : with_algo CRC3GSM (fun a => Calc a check_input) = Ret 0x4.
Proof. vm_compute. reflexivity. Qed.

Example check_CRC32ISOHDLC :
  with_algo CRC32ISOHDLC (fun a => Calc a check_input) = Ret 0xcbf43926.
Proof. vm_compute. reflexivity. Qed.

Example residue_CRC3GSM :
  with_algo CRC3GSM (fun a =>
    fst ((do_ UpdateBits (list_byte_of_string "CRC3GSM" ++ [xe0]) 59; Residue) (NewCRC a)))
  = Ret 0x2.
Proof. vm_compute. reflexivity. Qed.

(** ** Residue and final value *)

(** C7: [Residue] returns the register of the session when [refout] is set
    and [reflect(reg, width)] otherwise; [Final] returns the residue xor
    [xorout]. *)
Theorem residue_final_values {T} (c : crc T) :
  exists r,
    fst (Residue c) = Ret r /\
    r = (if refout (a c) then reg c else reflect T (reg c) (width (a c))) /\
    fst (Final c) = Ret (Z.lxor r (xorout (a c))).
Proof.
  eexists. rewrite Residue_run, Final_run. cbn [fst]. repeat split.
Qed.

(** ** Queries are pure, the engine is never written *)

Lemma run_queries_pure {T} (qs : list query) (c : crc T) :
  exists vs, run_queries qs c = (Ret vs, c) /\
             Forall2 (fun q v => fst (run_query q c) = Ret v) qs vs.
Proof.
  induction qs as [|q qs (vs & IH1 & IH2)].
  - exists []. split; [reflexivity|constructor].
  - assert (exists v, run_query q c = (Ret v, c)) as [v Hv].
    { destruct q; cbn [run_query]; rewrite ?Final_run, ?Residue_run; eexists; reflexivity. }
    exists (v :: vs). split.
    + cbn [run_queries]. unfold bind. rewrite Hv, IH1. reflexivity.
    + constructor; [now rewrite Hv|exact IH2].
Qed.

Lemma run_method_engine {T} (m : method) (c : crc T) : a (snd (run_method m c)) = a c.
Proof.
  destruct m as [data|data bitLen|[|]]; cbn [run_method run_query]; unfold bind;
    rewrite ?Update_run, ?UpdateBits_run, ?Final_run, ?Residue_run; try reflexivity.
  now destruct (tblUpd (a c) (reg c) data bitLen).
Qed.

Lemma run_query_pure {T} (q : query) (c : crc T) : snd (run_method (MQuery q) c) = c.
Proof.
  destruct q; cbn [run_method run_query]; unfold bind;
    rewrite ?Final_run, ?Residue_run; reflexivity.
Qed.

(** C10: [Final] and [Residue] leave the session as it was, so any sequence
    of them returns, call by call, what each query returns on the untouched
    session; no session method changes a field of the engine; and among
    sessions that share an engine, a method called on one of them leaves the
    engine and the registers of the others as they were, a query also the
    register of its own session. *)
Theorem queries_pure_engine_unchanged {T} (c : crc T) data bitLen (qs : list query) :
  snd (Final c) = c /\ snd (Residue c) = c /\
  (exists vs, run_queries qs c = (Ret vs, c) /\
              Forall2 (fun q v => fst (run_query q c) = Ret v) qs vs) /\
  a (snd (Update data c)) = a c /\
  a (snd (UpdateBits data bitLen c)) = a c /\
  a (snd (Final c)) = a c /\
  a (snd (Residue c)) = a c /\
  (forall (w : shared T) (i : nat) (m : method),
     let w' := snd (on_session i (run_method m) w) in
     engine w' = engine w /\
     (forall j, j <> i -> regs w' !! j = regs w !! j) /\
     (forall q, m = MQuery q -> w' = w)).
Proof.
  rewrite Final_run, Residue_run, Update_run, UpdateBits_run. cbn [snd].
  repeat split; try apply run_queries_pure.
  - now destruct (tblUpd (a c) (reg c) data bitLen).
  - unfold on_session. destruct (regs w !! i) as [r|]; [|reflexivity].
    pose proof (run_method_engine m (mk_crc (engine w) r)) as H.
    destruct (run_method m (mk_crc (engine w) r)) as [o c']. exact H.
  - intros j Hj. unfold on_session. destruct (regs w !! i) as [r|]; [|reflexivity].
    destruct (run_method m (mk_crc (engine w) r)) as [o c']. cbn [snd regs].
    now apply list_lookup_insert_ne.
  - intros q ->. unfold on_session. destruct (regs w !! i) as [r|] eqn:E; [|reflexivity].
    pose proof (run_query_pure q (mk_crc (engine w) r)) as H.
    destruct (run_method (MQuery q) (mk_crc (engine w) r)) as [o c'].
    cbn [snd] in *. subst c'. cbn [a reg]. rewrite list_insert_id by exact E.
    now destruct w.
Qed.

(** ** One-shot computation *)

Lemma CalcBits_run {T} (e : algo T) data bitLen :
  CalcBits e data bitLen =
  match tblUpd e (refInit e) data bitLen with
  | Ret r => Ret (Z.lxor (if refout e then r else reflect T r (width e)) (xorout e))
  | Err err => Err err
  | Panic msg => Panic msg
  end.
Proof.
  unfold CalcBits, NewCRC, bind. rewrite UpdateBits_run. cbn [a reg].
  destruct (tblUpd e (refInit e) data bitLen); try reflexivity.
  now rewrite Final_run.
Qed.

(** C8: [Calc(data)], [CalcBits(data, -1)] and [CalcBits(data, 8*len(data))]
    return the same value. *)
Theorem calc_calcBits_agree {T} (e : algo T) (data : list byte) :
  exists v,
    Calc e data = Ret v /\
    CalcBits e data (-1) = Ret v /\
    CalcBits e data (8 * Z.of_nat (length data)) = Ret v.
Proof.
  eexists. unfold Calc. rewrite !CalcBits_run.
  rewrite tblUpd_whole by lia.
  replace (8 * Z.of_nat (length data)) with (8 * Z.of_nat (length data) + 0) by lia.
  rewrite tblUpd_bits by lia. cbn zeta.
  rewrite Z.ltb_irrefl, Nat2Z.id, firstn_all. repeat split.
Qed.

(** ** A bit length beyond the buffer *)

(** C6: with [bitLen] greater than [8*len(data)] (so not negative),
    [UpdateBits] panics and leaves the session as it was, and [CalcBits]
    panics; nothing is truncated or wrapped. *)
Theorem bitLen_beyond_buffer_panics {T} (c : crc T) (e : algo T) data bitLen :
  8 * Z.of_nat (length data) < bitLen ->
  UpdateBits data bitLen c = (Panic bitLen_msg, c) /\
  CalcBits e data bitLen = Panic bitLen_msg.
Proof.
  intros Hlen. rewrite UpdateBits_run, CalcBits_run, !tblUpd_beyond by exact Hlen.
  split; reflexivity.
Qed.

Lemma bitLen_beyond_buffer_panics_witness :
  exists e : algo uint8,
    CRC5USB = Ret e /\
    UpdateBits [x31; x32] 17 (NewCRC e) = (Panic bitLen_msg, NewCRC e) /\
    CalcBits e [x31; x32] 17 = Panic bitLen_msg.
Proof.
  eexists. split; [vm_compute; reflexivity|].
  apply bitLen_beyond_buffer_panics. simpl. lia.
Defined.

(** ** Parameter validation *)

Lemma shl_one T n :
  0 <= n -> shl T 1 n = if n <? bitWidth T then 2 ^ n else 0.
Proof.
  intros Hn. unfold shl, wrap. rewrite Z.shiftl_1_l.
  pose proof (bitWidth_pos T) as Hw.
  destruct (Z.ltb_spec n (bitWidth T)) as [Hlt|Hge].
  - apply Z.mod_small. split; [apply Z.pow_nonneg; lia|].
    apply Z.pow_lt_mono_r; lia.
  - replace n with ((n - bitWidth T) + bitWidth T) by lia.
    rewrite Z.pow_add_r by lia. apply Z.mod_mul.
    apply Z.pow_nonzero; lia.
Qed.

(** For a width that fits [T], the mask [(T(1) << width) - 1] of
    [checkParams] is [2^width - 1], also when [width] is the full width
    of [T] and the shift gives 0. *)
Lemma width_mask T w :
  0 < w <= bitWidth T -> sub T (shl T 1 w) 1 = 2 ^ w - 1.
Proof.
  intros Hw. rewrite shl_one by lia. unfold sub, wrap.
  assert (0 < 2 ^ w) by (apply Z.pow_pos_nonneg; lia).
  destruct (Z.ltb_spec w (bitWidth T)) as [Hlt|Hge].
  - apply Z.mod_small.
    assert (2 ^ w < 2 ^ bitWidth T) by (apply Z.pow_lt_mono_r; lia). lia.
  - assert (w = bitWidth T) as -> by lia.
    symmetry. apply (Z.mod_unique _ _ (-1)); lia.
Qed.

Lemma checkParams_cases T w p i x :
  (invalid_params T w p i x /\ exists msg, checkParams T w p i x = Some (errors_New msg)) \/
  (~ invalid_params T w p i x /\ checkParams T w p i x = None).
Proof.
  unfold checkParams, invalid_params.
  destruct (Z.leb_spec w 0) as [Hw|Hw]; cbn [orb].
  { left. split; [lia|]. eexists; reflexivity. }
  rewrite shl_one by lia.
  assert (0 < 2 ^ (w - 1)) by (apply Z.pow_pos_nonneg; lia).
  destruct (Z.ltb_spec (w - 1) (bitWidth T)) as [Hfit|Hwide].
  2:{ left. split; [lia|]. eexists; reflexivity. }
  rewrite (proj2 (Z.eqb_neq _ 0)) by lia.
  rewrite width_mask by lia.
  destruct (Z.ltb_spec (2 ^ w - 1) p); cbn [orb];
    [left; split; [lia|eexists; reflexivity]|].
  destruct (Z.ltb_spec (2 ^ w - 1) i); cbn [orb];
    [left; split; [lia|eexists; reflexivity]|].
  destruct (Z.ltb_spec (2 ^ w - 1) x); cbn [orb];
    [left; split; [lia|eexists; reflexivity]|].
  right. split; [lia|reflexivity].
Qed.

Lemma tblUpd_no_error {T} (e : algo T) reg data bitLen err :
  tblUpd e reg data bitLen <> Err err.
Proof.
  destruct (Z.le_gt_cases bitLen (8 * Z.of_nat (length data))) as [Hin|Hout].
  - destruct (tblUpd_returns e reg data bitLen Hin) as [r ->]. discriminate.
  - rewrite tblUpd_beyond by lia. discriminate.
Qed.

Lemma session_no_error {T} (c : crc T) data bitLen err :
  fst (UpdateBits data bitLen c) <> Err err /\
  fst (Update data c) <> Err err /\
  fst (Final c) <> Err err /\
  fst (Residue c) <> Err err.
Proof.
  rewrite UpdateBits_run, Update_run, Final_run, Residue_run. cbn [fst].
  repeat split; try discriminate.
  pose proof (tblUpd_no_error (a c) (reg c) data bitLen err) as H.
  destruct (tblUpd (a c) (reg c) data bitLen); cbn [fst]; congruence.
Qed.

(** C5: [NewAlgo] returns an error, and does not panic, exactly when
    [width <= 0], or [width] exceeds the bit width of [T], or one of [poly],
    [init], [xorout] exceeds [(1<<width)-1]; for all other parameters it
    returns an engine; and no session method ever returns an error. *)
Theorem NewAlgo_invalid_parameter T width poly init xorout refin refout :
  ((exists msg, NewAlgo T width poly init xorout refin refout = Err (errors_New msg))
   <-> invalid_params T width poly init xorout) /\
  ((exists e, NewAlgo T width poly init xorout refin refout = Ret e)
   <-> ~ invalid_params T width poly init xorout) /\
  (forall msg, NewAlgo T width poly init xorout refin refout <> Panic msg) /\
  (forall (c : crc T) data bitLen err,
     fst (UpdateBits data bitLen c) <> Err err /\
     fst (Update data c) <> Err err /\
     fst (Final c) <> Err err /\
     fst (Residue c) <> Err err).
Proof.
  unfold NewAlgo.
  destruct (checkParams_cases T width poly init xorout) as [[Hbad [msg ->]]|[Hok ->]].
  - split; [|split; [|split]].
    + split; [intros _; exact Hbad|intros _; now exists msg].
    + split; [intros [e He]; discriminate|intros Hn; contradiction].
    + discriminate.
    + intros c data bitLen err. apply session_no_error.
  - split; [|split; [|split]].
    + split; [intros [msg Hmsg]; discriminate|intros Hbad; contradiction].
    + split; [intros _; exact Hok|intros _; eexists; reflexivity].
    + discriminate.
    + intros c data bitLen err. apply session_no_error.
Qed.

(** ** Reflection *)

(** C9, as stated, fails: on [uint8] the ninth bit of a reflection over nine
    bits is shifted out of the result. *)
Lemma reflect_beyond_type_width :
  1 <= 9 <= 64 /\ 0 <= 8 < 9 /\
  reflect uint8 1 9 = 0 /\
  Z.testbit (reflect uint8 1 9) 8 = false /\ Z.testbit 1 (9 - 1 - 8) = true.
Proof. repeat split; try lia; reflexivity. Qed.

(** C9, amended: for [numBits] between 1 and the bit width of [T] (at most
    64), the low [numBits] bits of [reflect(val, numBits)] are those of
    [val] in reversed order and the bits from [numBits] on are zero; and
    [reflectedBytes[b] = reflect(b, 8)] for every byte [b]. *)
Theorem reflect_reverses_low_bits T val numBits :
  1 <= numBits <= bitWidth T ->
  (forall i, 0 <= i < numBits ->
     Z.testbit (reflect T val numBits) i = Z.testbit val (numBits - 1 - i)) /\
  (forall i, numBits <= i -> Z.testbit (reflect T val numBits) i = false) /\
  0 <= reflect T val numBits < 2 ^ numBits /\
  (forall b : byte, index reflectedBytes (byteZ b) = reflect uint8 (byteZ b) 8).
Proof.
  intros Hn.
  assert (Hhigh : forall i, numBits <= i -> Z.testbit (reflect T val numBits) i = false).
  { intros i Hi. rewrite reflect_testbit by lia.
    apply andb_false_intro1, Z.ltb_ge. lia. }
  repeat split.
  - intros i Hi. rewrite reflect_testbit by lia.
    now rewrite (proj2 (Z.ltb_lt i numBits)) by lia.
  - exact Hhigh.
  - apply Z.bits_iff_nonneg_ex. exists numBits. intros m Hm. apply Hhigh. lia.
  - apply (Z.bounded_iff_bits_nonneg numBits); [lia| |exact Hhigh].
    apply Z.bits_iff_nonneg_ex. exists numBits. intros m Hm. apply Hhigh. lia.
  - apply reflectedBytes_index.
Qed.

Lemma reflect_reverses_low_bits_witness :
  (forall i, 0 <= i < 5 -> Z.testbit (reflect uint8 0x05 5) i = Z.testbit 0x05 (5 - 1 - i)) /\
  (forall i, 5 <= i -> Z.testbit (reflect uint8 0x05 5) i = false) /\
  0 <= reflect uint8 0x05 5 < 2 ^ 5 /\
  (forall b : byte, index reflectedBytes (byteZ b) = reflect uint8 (byteZ b) 8).
Proof. apply (reflect_reverses_low_bits uint8 0x05 5). simpl. lia. Defined.

(** ** The accelerator table *)

(** C3, as stated, fails for an engine without [refin]: the table of
    CRC-8/SMBUS holds at 1 the update of register 1, while the bit-by-bit
    update of register 0 with input byte 1 reflects the byte first. *)
Lemma table_entry_not_reflected :
  exists e : algo uint8,
    CRC8SMBUS = Ret e /\
    index (table e) 1 = 0x91 /\ bbbUpd e 0 x01 8 = 0xe0.
Proof. eexists. split; [vm_compute; reflexivity|]. split; vm_compute; reflexivity. Qed.

(** C3, amended: in every engine that [NewAlgo] returns, [table[0]] is 0 and
    [table[i]], for every byte value [i], is the bit-by-bit update over 8
    bits of register [i] with input byte 0, that is 8 rounds of the
    register started from [i]; it is [bbbUpd(0, i, 8)] when [refin] is set,
    and without [refin] [bbbUpd(0, i, 8)] is the entry at [reflect(i, 8)]. *)
Theorem table_entries T width poly init xorout refin' refout' (e : algo T) :
  NewAlgo T width poly init xorout refin' refout' = Ret e ->
  index (table e) 0 = 0 /\
  length (table e) = 256%nat /\
  forall i : byte,
    index (table e) (byteZ i) = bbbUpd e (byteZ i) x00 8 /\
    index (table e) (byteZ i) = Nat.iter 8 (bit_round e) (byteZ i) /\
    bbbUpd e 0 i 8 =
      index (table e) (if refin e then byteZ i else reflect uint8 (byteZ i) 8).
Proof.
  intros Hnew. pose proof (NewAlgo_table_ok _ _ _ _ _ _ _ Hnew) as Htbl.
  split; [|split].
  - rewrite Htbl by lia. rewrite (rounds_shift e 8 0) by (intros; apply Z.bits_0).
    reflexivity.
  - exact (NewAlgo_table_length _ _ _ _ _ _ _ Hnew).
  - intros i. pose proof (byteZ_range i) as Hi. split; [|split].
    + now rewrite bbbUpd_x00, Htbl by lia.
    + now rewrite Htbl by lia.
    + rewrite bbbUpd_8, Z.lxor_0_l. pose proof (inbyte_range e i) as Hin.
      rewrite <- Htbl by lia. f_equal. unfold inbyte.
      destruct (refin e); [reflexivity|]. apply reflectedBytes_index.
Qed.

Lemma table_entries_witness :
  exists e : algo uint8,
    CRC8SMBUS = Ret e /\
    index (table e) 0 = 0 /\
    length (table e) = 256%nat /\
    forall i : byte,
      index (table e) (byteZ i) = bbbUpd e (byteZ i) x00 8 /\
      index (table e) (byteZ i) = Nat.iter 8 (bit_round e) (byteZ i) /\
      bbbUpd e 0 i 8 =
        index (table e) (if refin e then byteZ i else reflect uint8 (byteZ i) 8).
Proof.
  eexists. split; [vm_compute; reflexivity|].
  apply (table_entries uint8 8 0x07 0x00 0x00 false false). vm_compute. reflexivity.
Defined.

(** ** The bits of a partial byte *)

Lemma same_leading_bits_refl {T} (e : algo T) n b : same_leading_bits e n b b.
Proof. unfold same_leading_bits. now destruct (refin e). Qed.

Lemma bbbUpd_same_bits {T} (e : algo T) reg n b1 b2 :
  1 <= n <= 8 -> same_leading_bits e n b1 b2 ->
  bbbUpd e reg b1 n = bbbUpd e reg b2 n.
Proof.
  intros Hn Hsame. rewrite !bbbUpd_rounds by lia. do 2 f_equal.
  bitwise i Hi. rewrite !inbyte_testbit by lia.
  unfold same_leading_bits in Hsame.
  destruct (Z.ltb_spec i n) as [Hlt|Hge]; [|now rewrite !andb_false_r].
  rewrite !andb_true_r. f_equal.
  destruct (refin e).
  - rewrite <- (Z.mod_pow2_bits_low (byteZ b1) n i), <- (Z.mod_pow2_bits_low (byteZ b2) n i)
      by lia.
    now rewrite Hsame.
  - replace (7 - i) with ((n - 1 - i) + (8 - n)) by lia.
    rewrite <- !Z.shiftr_spec by lia. now rewrite Hsame.
Qed.

(** C4, as stated, fails for an engine without [refin]: CRC-8/SMBUS consumes
    a byte from its most significant bit, so [0x00] and [0x80], which have
    the same lowest bit, update the register differently over one bit. *)
Lemma high_bit_used_without_refin :
  exists e : algo uint8,
    CRC8SMBUS = Ret e /\
    byteZ x00 mod 2 ^ 1 = byteZ x80 mod 2 ^ 1 /\
    bbbUpd e 0 x00 1 = 0 /\ bbbUpd e 0 x80 1 = 0xe0.
Proof.
  eexists. split; [vm_compute; reflexivity|].
  repeat split; vm_compute; reflexivity.
Qed.

(** C4, amended: for a [bitLen] from 1 to 8, two bytes give the same
    bit-by-bit update when the engine has [refin] and they agree on their low
    [bitLen] bits, or the engine has no [refin] and they agree on their high
    [bitLen] bits: the other [8 - bitLen] bits never affect the result. *)
Theorem bbbUpd_ignores_unused_bits {T} (e : algo T) reg bitLen (b1 b2 : byte) :
  1 <= bitLen <= 8 ->
  (if refin e
   then byteZ b1 mod 2 ^ bitLen = byteZ b2 mod 2 ^ bitLen
   else Z.shiftr (byteZ b1) (8 - bitLen) = Z.shiftr (byteZ b2) (8 - bitLen)) ->
  bbbUpd e reg b1 bitLen = bbbUpd e reg b2 bitLen.
Proof. intros Hn Hsame. now apply bbbUpd_same_bits. Qed.

Lemma bbbUpd_ignores_unused_bits_witness :
  exists e : algo uint8,
    CRC8SMBUS = Ret e /\ bbbUpd e 0x5a x80 3 = bbbUpd e 0x5a x9f 3.
Proof.
  eexists. split; [vm_compute; reflexivity|].
  apply bbbUpd_ignores_unused_bits; [lia|]. vm_compute. reflexivity.
Defined.

(** ** Chunked updates *)

Lemma Update_Update {T} (c : crc T) (A B : list byte) :
  (do_ Update A; Update B) c = Update (A ++ B) c.
Proof.
  unfold bind at 1. rewrite !Update_run. cbn [a reg]. now rewrite foldl_app.
Qed.

(** C2, as stated, fails: it compares a session in any state with a fresh
    one.  A CRC-5/USB session that has consumed ["1"] and is then updated
    with ["2"] and with ["3"] has the final value [0x1c], that of ["123"]; a
    fresh session updated with ["23"] has the final value [0x06]. *)
Lemma used_session_differs_from_fresh :
  exists e : algo uint8,
    CRC5USB = Ret e /\
    fst ((do_ Update [x32]; do_ Update [x33]; Final) (snd (Update [x31] (NewCRC e))))
      = Ret 0x1c /\
    fst ((do_ Update ([x32] ++ [x33]); Final) (NewCRC e)) = Ret 0x06.
Proof.
  eexists. split; [vm_compute; reflexivity|]. split; vm_compute; reflexivity.
Qed.

(** C2, amended: on every session, [Update(A)] then [Update(B)] leaves the
    session in the state, and so with the final value, that [Update] of the
    concatenation leaves a session of the same engine started from the same
    register; in particular a fresh session updated with [A] then [B] has
    the final value of a fresh session updated with the concatenation. *)
Theorem update_chunks_concat {T} (c : crc T) (e : algo T) (A B : list byte) :
  (do_ Update A; Update B) c = Update (A ++ B) c /\
  fst ((do_ Update A; do_ Update B; Final) c) =
    fst ((do_ Update (A ++ B); Final) (mk_crc (a c) (reg c))) /\
  fst ((do_ Update A; do_ Update B; Final) (NewCRC e)) =
    fst ((do_ Update (A ++ B); Final) (NewCRC e)).
Proof.
  assert (H : forall c : crc T,
             (do_ Update A; do_ Update B; Final) c = (do_ Update (A ++ B); Final) c).
  { intros c'. unfold bind. rewrite !Update_run. cbn [a reg]. now rewrite foldl_app. }
  split; [apply Update_Update|]. split.
  - rewrite H. now destruct c.
  - now rewrite H.
Qed.

(** ** Splitting the input at a bit boundary *)

Lemma split_session_whole {T} (e : algo T) r pre b b1 b2 post k :
  table_ok e -> 1 <= k <= 7 ->
  same_leading_bits e k b1 b ->
  same_leading_bits e (8 - k) b2 (rest_byte e b k) ->
  split_session pre b1 k b2 post (mk_crc e r) =
  whole_session (pre ++ b :: post) (mk_crc e r).
Proof.
  intros Htbl Hk Hb1 Hb2. unfold split_session, whole_session, bind.
  rewrite UpdateBits_run. cbn [a reg]. rewrite tblUpd_partial by exact Hk.
  rewrite UpdateBits_run. cbn [a reg].
  replace (8 - k) with (8 * Z.of_nat (length (@nil byte)) + (8 - k)) at 1
    by (cbn [length]; lia).
  rewrite (tblUpd_partial e _ [] b2 []) by lia. cbn [foldl].
  rewrite !Update_run. cbn [a reg]. rewrite foldl_app. cbn [foldl].
  rewrite (bbbUpd_same_bits e _ k b1 b) by (assumption || lia).
  rewrite (bbbUpd_same_bits e _ (8 - k) b2 (rest_byte e b k)) by (assumption || lia).
  rewrite bbbUpd_split by exact Hk. rewrite <- tbl_round_bbbUpd by exact Htbl.
  reflexivity.
Qed.

(** C1: for every engine that [NewAlgo] returns and every session register,
    a session updated with [n] whole bytes and the first [k] bits (1..7) of
    the byte that follows, then with the remaining [8 - k] bits of that byte,
    then with the rest of the data, has the final value of a session updated
    once with the whole data; the bits of the two partial bytes that the
    engine does not consume are free.  For CRC-5/USB the check string gives
    [0x19], whole and split after 4 bytes and 2 bits. *)
Theorem split_at_bit_boundary :
  (forall T width poly init xorout refin' refout' (e : algo T)
          reg (pre : list byte) (b b1 b2 : byte) (post : list byte) k,
     NewAlgo T width poly init xorout refin' refout' = Ret e ->
     1 <= k <= 7 ->
     same_leading_bits e k b1 b ->
     same_leading_bits e (8 - k) b2 (rest_byte e b k) ->
     fst (split_session pre b1 k b2 post (mk_crc e reg)) =
     fst (whole_session (pre ++ b :: post) (mk_crc e reg))) /\
  (forall T width poly init xorout refin' refout' (e : algo T)
          (pre : list byte) (b : byte) (post : list byte) k,
     NewAlgo T width poly init xorout refin' refout' = Ret e ->
     1 <= k <= 7 ->
     fst (split_session pre b k (rest_byte e b k) post (NewCRC e)) =
     Calc e (pre ++ b :: post)) /\
  (exists usb : algo uint8,
     CRC5USB = Ret usb /\
     Calc usb (list_byte_of_string "123456789") = Ret 0x19 /\
     fst ((do_ UpdateBits (list_byte_of_string "12345") (8 * 4 + 2);
           do_ UpdateBits [x0d] 6;
           do_ Update (list_byte_of_string "6789");
           Final) (NewCRC usb)) = Ret 0x19).
Proof.
  split; [|split].
  - intros T width poly init xorout refin' refout' e reg pre b b1 b2 post k
           Hnew Hk Hb1 Hb2.
    rewrite (split_session_whole e reg pre b b1 b2 post k); auto.
    exact (NewAlgo_table_ok _ _ _ _ _ _ _ Hnew).
  - intros T width poly init xorout refin' refout' e pre b post k Hnew Hk.
    unfold NewCRC.
    rewrite (split_session_whole e _ pre b b (rest_byte e b k) post k);
      auto using same_leading_bits_refl.
    exact (NewAlgo_table_ok _ _ _ _ _ _ _ Hnew).
  - eexists. split; [vm_compute; reflexivity|]. split; vm_compute; reflexivity.
Qed.

Lemma split_at_bit_boundary_witness :
  exists usb : algo uint8,
    CRC5USB = Ret usb /\
    fst (split_session (list_byte_of_string "1234") xfd 2 xcd
           (list_byte_of_string "6789") (NewCRC usb)) =
    fst (whole_session (list_byte_of_string "123456789") (NewCRC usb)).
Proof.
  eexists. split; [vm_compute; reflexivity|].
  apply (proj1 split_at_bit_boundary uint8 5 0x05 0x1f 0x1f true true _ _
           (list_byte_of_string "1234") x35 xfd xcd (list_byte_of_string "6789") 2).
  - vm_compute. reflexivity.
  - lia.
  - vm_compute. reflexivity.
  - vm_compute. reflexivity.
Defined.

(** * Further properties *)

(** ** Reflection is an involution *)

Lemma reflect_range T val numBits :
  1 <= numBits <= bitWidth T -> 0 <= reflect T val numBits < 2 ^ numBits.
Proof.
  intros Hn. apply range_bits; [lia|].
  assert (Hhigh : forall i, numBits <= i -> Z.testbit (reflect T val numBits) i = false).
  { intros i Hi. rewrite reflect_testbit by lia.
    apply andb_false_intro1, Z.ltb_ge. lia. }
  split; [|exact Hhigh].
  apply Z.bits_iff_nonneg_ex. exists numBits. intros m Hm. apply Hhigh. lia.
Qed.

Lemma reflect_reflect T val numBits :
  1 <= numBits <= bitWidth T -> 0 <= val < 2 ^ numBits ->
  reflect T (reflect T val numBits) numBits = val.
Proof.
  intros Hn Hval. apply range_bits in Hval as [Hval Hhigh]; [|lia].
  apply Z.bits_inj'. intros i Hi. rewrite reflect_testbit by lia.
  destruct (Z.ltb_spec i numBits) as [Hlt|Hge].
  - rewrite reflect_testbit by lia.
    rewrite (proj2 (Z.ltb_lt (numBits - 1 - i) numBits)) by lia.
    cbn [andb]. f_equal. lia.
  - now rewrite Hhigh by lia.
Qed.

Lemma reflect_lxor T x y numBits :
  1 <= numBits <= bitWidth T ->
  reflect T (Z.lxor x y) numBits = Z.lxor (reflect T x numBits) (reflect T y numBits).
Proof.
  intros Hn. apply Z.bits_inj'. intros i Hi.
  rewrite Z.lxor_spec, !reflect_testbit, Z.lxor_spec by lia.
  now destruct (i <? numBits), (Z.testbit x _), (Z.testbit y _).
Qed.

(** X1: reflecting twice over the same number of bits gives the value back,
    for a value of [numBits] bits and [numBits] within the width of [T]; and
    the byte-reflection table is its own inverse. *)
Theorem reflect_involutive T val numBits :
  1 <= numBits <= bitWidth T -> 0 <= val < 2 ^ numBits ->
  reflect T (reflect T val numBits) numBits = val /\
  (forall b : byte,
     index reflectedBytes (index reflectedBytes (byteZ b)) = byteZ b).
Proof.
  intros Hn Hval. split; [now apply reflect_reflect|].
  intros b. pose proof (byteZ_range b) as Hb.
  rewrite reflectedBytes_index.
  pose proof (reflect_range uint8 (byteZ b) 8 ltac:(simpl; lia)) as Hr.
  assert (E : reflect uint8 (byteZ b) 8 = byteZ (byte_of_Z (reflect uint8 (byteZ b) 8)))
    by now rewrite byteZ_of_Z, wrap_small.
  rewrite E, reflectedBytes_index, <- E.
  apply reflect_reflect; simpl; lia.
Qed.

Lemma reflect_involutive_witness :
  reflect uint8 (reflect uint8 0x05 5) 5 = 0x05 /\
  (forall b : byte,
     index reflectedBytes (index reflectedBytes (byteZ b)) = byteZ b).
Proof. apply reflect_involutive; simpl; lia. Defined.

(** ** The update in closed form *)

Section ClosedForm.

Context {T : UInt} (e : algo T).

Lemma rounds_plus n m r :
  0 <= n -> 0 <= m -> rounds e (n + m) r = rounds e m (rounds e n r).
Proof.
  intros Hn Hm. unfold rounds. rewrite Z2Nat.inj_add by lia. apply rounds_add.
Qed.

Lemma rounds_xor n x y : rounds e n (Z.lxor x y) = Z.lxor (rounds e n x) (rounds e n y).
Proof. apply rounds_lxor. Qed.

(** Rounds over a value shifted left by as many bits give the value back. *)
Lemma rounds_shiftl n x : 0 <= n -> rounds e n (Z.shiftl x n) = x.
Proof.
  intros Hn. unfold rounds. rewrite rounds_shift.
  - rewrite Z2Nat.id, Z.shiftr_shiftl_l, Z.sub_diag by lia. apply Z.shiftl_0_r.
  - intros i Hi. apply Z.shiftl_spec_low. lia.
Qed.

Lemma input_value_range data :
  0 <= input_value e data < 2 ^ (8 * Z.of_nat (length data)).
Proof.
  induction data as [|b data IH]; [cbn; lia|].
  cbn [input_value length]. pose proof (inbyte_range e b) as Hb.
  apply range_bits; [lia|]. apply range_bits in IH as [IH0 IH]; [|lia]. split.
  - apply Z.lxor_nonneg. split; intros _; [|lia]. apply Z.shiftl_nonneg. lia.
  - intros i Hi. rewrite Z.lxor_spec, Z.shiftl_spec by lia.
    rewrite (proj1 (Z.bounded_iff_bits_nonneg 8 (inbyte e b) ltac:(lia) ltac:(lia)))
      by lia.
    rewrite IH by lia. reflexivity.
Qed.

Lemma input_value_app pre post :
  input_value e (pre ++ post) =
  Z.lxor (input_value e pre) (Z.shiftl (input_value e post) (8 * Z.of_nat (length pre))).
Proof.
  induction pre as [|b pre IH]; cbn [input_value app length].
  - now rewrite Z.shiftl_0_r.
  - rewrite IH, Z.shiftl_lxor, Z.shiftl_shiftl by lia.
    rewrite Z.lxor_assoc. do 3 f_equal. lia.
Qed.

(** The low [8*len(pre) + k] bits of the input. *)
Lemma input_value_low pre post k :
  0 <= k ->
  Z.land (input_value e (pre ++ post)) (Z.ones (8 * Z.of_nat (length pre) + k)) =
  Z.lxor (input_value e pre)
         (Z.shiftl (Z.land (input_value e post) (Z.ones k)) (8 * Z.of_nat (length pre))).
Proof.
  intros Hk. rewrite input_value_app.
  pose proof (input_value_range pre) as Hpre.
  apply range_bits in Hpre as [_ Hpre]; [|lia].
  set (n := 8 * Z.of_nat (length pre)) in *.
  bitwise i Hi. rewrite (proj2 (Z.leb_le 0 i)) by lia. cbn [andb].
  destruct (Z.ltb_spec i n) as [Hlt|Hge].
  - rewrite !(Z.testbit_neg_r _ (i - n)) by lia.
    rewrite (proj2 (Z.ltb_lt i (n + k))) by lia.
    now rewrite !xorb_false_r, andb_true_r.
  - rewrite Hpre by lia. cbn [xorb].
    rewrite (proj2 (Z.leb_le 0 (i - n))) by lia. cbn [andb].
    destruct (Z.ltb_spec i (n + k)), (Z.ltb_spec (i - n) k); try lia;
      rewrite ?andb_true_r, ?andb_false_r; reflexivity.
Qed.

Lemma input_value_first b rest k :
  0 <= k <= 8 ->
  Z.land (input_value e (b :: rest)) (Z.ones k) = Z.land (inbyte e b) (Z.ones k).
Proof.
  intros Hk. cbn [input_value]. bitwise i Hi.
  rewrite (proj2 (Z.leb_le 0 i)) by lia. cbn [andb].
  destruct (Z.ltb_spec i k) as [Hlt|Hge]; [|now rewrite !andb_false_r].
  rewrite (Z.testbit_neg_r _ (i - 8)) by lia. now rewrite xorb_false_r.
Qed.

Hypothesis table_filled : table_ok e.

(** Whole bytes through the table: [8*len] rounds on the register xor the
    input. *)
Lemma foldl_tbl_round_rounds data r :
  foldl (tbl_round e) r data =
  rounds e (8 * Z.of_nat (length data)) (Z.lxor r (input_value e data)).
Proof.
  revert r. induction data as [|b data IH]; intros r.
  - cbn. now rewrite Z.lxor_0_r.
  - cbn [foldl input_value length]. rewrite IH.
    rewrite tbl_round_rounds by exact table_filled.
    change (Nat.iter 8 (bit_round e) ?x) with (rounds e 8 x).
    rewrite <- (rounds_shiftl 8 (input_value e data)) at 1 by lia.
    rewrite <- rounds_xor, Z.lxor_assoc, <- rounds_plus by lia.
    f_equal. lia.
Qed.

Lemma tblUpd_negative r data bitLen :
  bitLen < 0 ->
  tblUpd e r data bitLen =
  Ret (rounds e (8 * Z.of_nat (length data)) (Z.lxor r (input_value e data))).
Proof.
  intros Hneg. rewrite tblUpd_whole by exact Hneg. now rewrite foldl_tbl_round_rounds.
Qed.

Lemma tblUpd_rounds r data bitLen :
  0 <= bitLen <= 8 * Z.of_nat (length data) ->
  tblUpd e r data bitLen =
  Ret (rounds e bitLen (Z.lxor r (Z.land (input_value e data) (Z.ones bitLen)))).
Proof.
  intros Hlen. pose proof (Z.div_mod bitLen 8 ltac:(lia)) as Hdm.
  pose proof (Z.mod_pos_bound bitLen 8 ltac:(lia)) as Hk.
  assert (0 <= bitLen / 8) as Hn by (apply Z.div_pos; lia).
  set (n := bitLen / 8) in *. set (k := bitLen mod 8) in *.
  clearbody n k. subst bitLen.
  rewrite tblUpd_bits by lia. cbn zeta.
  assert (Hnlen : (Z.to_nat n <= length data)%nat) by lia.
  assert (Hpre : length (take (Z.to_nat n) data) = Z.to_nat n)
    by (rewrite length_take; lia).
  rewrite <- (take_drop (Z.to_nat n) data) at 3.
  replace (8 * n) with (8 * Z.of_nat (length (take (Z.to_nat n) data))) at 2
    by (rewrite Hpre; lia).
  rewrite input_value_low by lia. rewrite Hpre, Z2Nat.id by lia.
  rewrite foldl_tbl_round_rounds, Hpre, Z2Nat.id by lia.
  destruct (Z.ltb_spec 0 k) as [Hbits|Hzero].
  - destruct (data !! Z.to_nat n) as [b|] eqn:E.
    2:{ apply lookup_ge_None in E. lia. }
    rewrite (drop_S _ _ _ E), input_value_first by lia.
    rewrite bbbUpd_rounds by lia.
    change (Nat.iter (Z.to_nat k) (bit_round e) ?x) with (rounds e k x).
    f_equal.
    rewrite <- (rounds_shiftl (8 * n) (Z.land (inbyte e b) (Z.ones k))) at 1 by lia.
    rewrite <- rounds_xor, Z.lxor_assoc, rounds_plus by lia. reflexivity.
  - assert (k = 0) as -> by lia.
    change (Z.ones 0) with 0. rewrite Z.land_0_r, Z.shiftl_0_l, Z.lxor_0_r.
    f_equal. f_equal. lia.
Qed.

End ClosedForm.

(** X2: for every engine that [NewAlgo] returns, an update is that many
    rounds of the shift register on the register xor the input bits taken as
    one number: [8*len(data)] rounds on all of the input for a negative
    [bitLen], and [bitLen] rounds on the first [bitLen] bits of the input
    for a [bitLen] within the buffer.  The table-driven path and the
    bit-by-bit path compute the same function. *)
Theorem update_closed_form T width poly init xorout refin' refout' (e : algo T) :
  NewAlgo T width poly init xorout refin' refout' = Ret e ->
  (forall r data bitLen,
     bitLen < 0 ->
     tblUpd e r data bitLen =
     Ret (rounds e (8 * Z.of_nat (length data)) (Z.lxor r (input_value e data)))) /\
  (forall r data bitLen,
     0 <= bitLen <= 8 * Z.of_nat (length data) ->
     tblUpd e r data bitLen =
     Ret (rounds e bitLen (Z.lxor r (Z.land (input_value e data) (Z.ones bitLen))))).
Proof.
  intros Hnew. pose proof (NewAlgo_table_ok _ _ _ _ _ _ _ Hnew) as Htbl.
  split; intros r data bitLen Hlen.
  - now apply tblUpd_negative.
  - now apply tblUpd_rounds.
Qed.

Lemma update_closed_form_witness :
  exists e : algo uint8,
    CRC5USB = Ret e /\
    (forall r data bitLen,
       bitLen < 0 ->
       tblUpd e r data bitLen =
       Ret (rounds e (8 * Z.of_nat (length data)) (Z.lxor r (input_value e data)))) /\
    (forall r data bitLen,
       0 <= bitLen <= 8 * Z.of_nat (length data) ->
       tblUpd e r data bitLen =
       Ret (rounds e bitLen (Z.lxor r (Z.land (input_value e data) (Z.ones bitLen))))).
Proof.
  eexists. split; [vm_compute; reflexivity|].
  apply (update_closed_form uint8 5 0x05 0x1f 0x1f true true). vm_compute. reflexivity.
Defined.

(** ** The register and the CRC value have [width] bits *)

Section BelowWidth.

Context {T : UInt} (e : algo T) (w : Z).
Hypothesis w_nonneg : 0 <= w.
Hypothesis refPoly_below : 0 <= refPoly e < 2 ^ w.

Lemma bit_round_below m r :
  0 <= m -> 0 <= r < 2 ^ m -> 0 <= bit_round e r < 2 ^ Z.max w (m - 1).
Proof.
  intros Hm Hr. rewrite bit_round_odd.
  apply range_bits in Hr as [Hr0 Hr]; [|lia].
  pose proof refPoly_below as HP. apply range_bits in HP as [HP0 HP]; [|lia].
  apply range_bits; [lia|]. split.
  - apply Z.lxor_nonneg. split; intros _.
    + destruct (Z.odd r); lia.
    + apply Z.shiftr_nonneg. lia.
  - intros i Hi. rewrite Z.lxor_spec, Z.shiftr_spec, Hr by lia.
    destruct (Z.odd r); [rewrite HP by lia|rewrite Z.bits_0]; reflexivity.
Qed.

Lemma rounds_below (n : nat) m r :
  0 <= m -> 0 <= r < 2 ^ m ->
  0 <= Nat.iter n (bit_round e) r < 2 ^ Z.max w (m - Z.of_nat n).
Proof.
  intros Hm Hr. induction n as [|n IH].
  - cbn [Nat.iter nat_rect]. change (Nat.iter 0 (bit_round e) r) with r.
    assert (2 ^ m <= 2 ^ Z.max w (m - Z.of_nat 0)) by (apply Z.pow_le_mono_r; lia).
    lia.
  - rewrite Nat.iter_succ.
    apply (bit_round_below (Z.max w (m - Z.of_nat n))) in IH; [|lia].
    replace (Z.max w (m - Z.of_nat (S n)))
      with (Z.max w (Z.max w (m - Z.of_nat n) - 1)) by lia.
    exact IH.
Qed.

Lemma bbbUpd_below r b k :
  0 <= k <= 8 -> 0 <= r < 2 ^ w -> 0 <= bbbUpd e r b k < 2 ^ w.
Proof.
  intros Hk Hr. rewrite bbbUpd_rounds by exact Hk.
  assert (Hx : 0 <= Z.lxor r (Z.land (inbyte e b) (Z.ones k)) < 2 ^ Z.max w k).
  { apply lxor_range; [lia| |].
    - assert (2 ^ w <= 2 ^ Z.max w k) by (apply Z.pow_le_mono_r; lia). lia.
    - rewrite Z.land_ones by lia.
      pose proof (Z.mod_pos_bound (inbyte e b) (2 ^ k) ltac:(apply Z.pow_pos_nonneg; lia)).
      assert (2 ^ k <= 2 ^ Z.max w k) by (apply Z.pow_le_mono_r; lia). lia. }
  apply (rounds_below (Z.to_nat k)) in Hx; [|lia].
  replace (Z.max w (Z.max w k - Z.of_nat (Z.to_nat k))) with w in Hx by lia.
  exact Hx.
Qed.

Lemma tblUpd_below r data bitLen r' :
  table_ok e -> 0 <= r < 2 ^ w -> tblUpd e r data bitLen = Ret r' -> 0 <= r' < 2 ^ w.
Proof.
  intros Htbl Hr.
  assert (Hfold : forall l r0, 0 <= r0 < 2 ^ w -> 0 <= foldl (tbl_round e) r0 l < 2 ^ w).
  { induction l as [|b l IH]; intros r0 Hr0; cbn [foldl]; [exact Hr0|].
    apply IH. rewrite tbl_round_bbbUpd by exact Htbl. apply bbbUpd_below; lia. }
  destruct (Z.ltb_spec bitLen 0) as [Hneg|Hpos].
  { rewrite tblUpd_whole by exact Hneg. intros [= <-]. now apply Hfold. }
  destruct (Z.le_gt_cases bitLen (8 * Z.of_nat (length data))) as [Hin|Hout].
  2:{ rewrite tblUpd_beyond by exact Hout. discriminate. }
  pose proof (Z.div_mod bitLen 8 ltac:(lia)) as Hdm.
  pose proof (Z.mod_pos_bound bitLen 8 ltac:(lia)) as Hk.
  assert (0 <= bitLen / 8) as Hn by (apply Z.div_pos; lia).
  rewrite Hdm, tblUpd_bits by lia. cbn zeta.
  destruct (0 <? bitLen mod 8).
  - destruct (data !! Z.to_nat (bitLen / 8)); [|discriminate].
    intros [= <-]. apply bbbUpd_below; [lia|]. now apply Hfold.
  - intros [= <-]. now apply Hfold.
Qed.

End BelowWidth.

(** The width that [checkParams] accepts fits [T], and the accepted
    parameters are below [2^width]. *)
Lemma NewAlgo_valid {T} w poly init xo ri ro (e : algo T) :
  NewAlgo T w poly init xo ri ro = Ret e ->
  0 < w <= bitWidth T /\ poly < 2 ^ w /\ init < 2 ^ w /\ xo < 2 ^ w.
Proof.
  intros Hnew. unfold NewAlgo in Hnew.
  destruct (checkParams_cases T w poly init xo) as [[_ [msg E]]|[Hok _]].
  - rewrite E in Hnew. discriminate.
  - unfold invalid_params in Hok. lia.
Qed.

(** X3: in every engine that [NewAlgo] returns for an [xorout] of type [T],
    a fresh session starts from a register below [2^width], every update
    keeps the register below [2^width], and so the values of [Residue],
    [Final] and [CalcBits] are below [2^width]. *)
Theorem crc_value_below_width T w poly init xo ri ro (e : algo T) :
  NewAlgo T w poly init xo ri ro = Ret e ->
  0 <= xo ->
  0 <= reg (NewCRC e) < 2 ^ w /\
  (forall r data bitLen,
     0 <= r < 2 ^ w ->
     0 <= reg (snd (UpdateBits data bitLen (mk_crc e r))) < 2 ^ w /\
     0 <= reg (snd (Update data (mk_crc e r))) < 2 ^ w) /\
  (forall r v,
     0 <= r < 2 ^ w ->
     fst (Residue (mk_crc e r)) = Ret v \/ fst (Final (mk_crc e r)) = Ret v ->
     0 <= v < 2 ^ w) /\
  (forall data bitLen v, CalcBits e data bitLen = Ret v -> 0 <= v < 2 ^ w).
Proof.
  intros Hnew Hxo.
  pose proof (NewAlgo_table_ok _ _ _ _ _ _ _ Hnew) as Htbl.
  destruct (NewAlgo_fields _ _ _ _ _ _ _ Hnew) as (Hw & HP & HI & HX & _ & _).
  destruct (NewAlgo_valid _ _ _ _ _ _ _ Hnew) as (Hwidth & _ & _ & Hxlt).
  assert (HPr : 0 <= refPoly e < 2 ^ w) by (rewrite HP; apply reflect_range; lia).
  assert (Hinit : 0 <= refInit e < 2 ^ w) by (rewrite HI; apply reflect_range; lia).
  assert (Hupd : forall r data bitLen,
             0 <= r < 2 ^ w ->
             0 <= reg (snd (UpdateBits data bitLen (mk_crc e r))) < 2 ^ w).
  { intros r data bitLen Hr. rewrite UpdateBits_run. cbn [a reg].
    destruct (tblUpd e r data bitLen) as [r'| |] eqn:E; cbn [snd reg]; try exact Hr.
    eapply (tblUpd_below e w); eauto; lia. }
  assert (Hout : forall r, 0 <= r < 2 ^ w ->
             0 <= (if refout e then r else reflect T r (width e)) < 2 ^ w).
  { intros r Hr. destruct (refout e); [exact Hr|]. rewrite Hw. apply reflect_range; lia. }
  split; [exact Hinit|]. split; [|split].
  - intros r data bitLen Hr. split; [now apply Hupd|]. exact (Hupd r data (-1) Hr).
  - intros r v Hr. rewrite Residue_run, Final_run. cbn [fst a reg].
    intros [[= <-]|[= <-]]; [now apply Hout|].
    rewrite HX. apply lxor_range; [lia|now apply Hout|lia].
  - intros data bitLen v. rewrite CalcBits_run.
    destruct (tblUpd e (refInit e) data bitLen) as [r'| |] eqn:E; try discriminate.
    intros [= <-]. rewrite HX. apply lxor_range; [lia| |lia].
    apply Hout. eapply (tblUpd_below e w); eauto; lia.
Qed.

Lemma crc_value_below_width_witness :
  exists e : algo uint8,
    CRC5USB = Ret e /\
    0 <= reg (NewCRC e) < 2 ^ 5 /\
    (forall r data bitLen,
       0 <= r < 2 ^ 5 ->
       0 <= reg (snd (UpdateBits data bitLen (mk_crc e r))) < 2 ^ 5 /\
       0 <= reg (snd (Update data (mk_crc e r))) < 2 ^ 5) /\
    (forall r v,
       0 <= r < 2 ^ 5 ->
       fst (Residue (mk_crc e r)) = Ret v \/ fst (Final (mk_crc e r)) = Ret v ->
       0 <= v < 2 ^ 5) /\
    (forall data bitLen v, CalcBits e data bitLen = Ret v -> 0 <= v < 2 ^ 5).
Proof.
  eexists. split; [vm_compute; reflexivity|].
  apply (crc_value_below_width uint8 5 0x05 0x1f 0x1f true true);
    [vm_compute; reflexivity|lia].
Defined.

(** ** Chunks of any bit length *)

Section Chunks.

Context {T : UInt}.

Lemma UpdateBits_composed (c : crc T) (A B : list byte) m :
  0 <= m <= 8 * Z.of_nat (length B) ->
  (do_ Update A; UpdateBits B m) c =
  UpdateBits (A ++ B) (8 * Z.of_nat (length A) + m) c.
Proof.
  intros Hm. unfold bind. rewrite Update_run, !UpdateBits_run. cbn [a reg].
  pose proof (Z.div_mod m 8 ltac:(lia)) as Hdm.
  pose proof (Z.mod_pos_bound m 8 ltac:(lia)) as Hk.
  assert (0 <= m / 8) as Hn by (apply Z.div_pos; lia).
  set (n := m / 8) in *. set (k := m mod 8) in *. clearbody n k. subst m.
  replace (8 * Z.of_nat (length A) + (8 * n + k))
    with (8 * (Z.of_nat (length A) + n) + k) by lia.
  rewrite !tblUpd_bits by (rewrite ?length_app; lia). cbn zeta.
  replace (Z.to_nat (Z.of_nat (length A) + n)) with (length A + Z.to_nat n)%nat by lia.
  rewrite take_app_add, foldl_app, lookup_app_r by lia.
  replace (length A + Z.to_nat n - length A)%nat with (Z.to_nat n) by lia.
  destruct (Z.ltb_spec 0 k) as [Hbits|_]; [|reflexivity].
  destruct (B !! Z.to_nat n) as [b|] eqn:E; [reflexivity|].
  apply lookup_ge_None in E. lia.
Qed.

Lemma UpdateBits_prefix (c : crc T) (data extra : list byte) bitLen :
  0 <= bitLen <= 8 * Z.of_nat (length data) ->
  UpdateBits (data ++ extra) bitLen c = UpdateBits data bitLen c.
Proof.
  intros Hm. rewrite !UpdateBits_run.
  pose proof (Z.div_mod bitLen 8 ltac:(lia)) as Hdm.
  pose proof (Z.mod_pos_bound bitLen 8 ltac:(lia)) as Hk.
  assert (0 <= bitLen / 8) as Hn by (apply Z.div_pos; lia).
  set (n := bitLen / 8) in *. set (k := bitLen mod 8) in *. clearbody n k. subst bitLen.
  rewrite !tblUpd_bits by (rewrite ?length_app; lia). cbn zeta.
  rewrite take_app_le by lia.
  destruct (Z.ltb_spec 0 k) as [Hbits|_]; [|reflexivity].
  rewrite lookup_app_l by lia. reflexivity.
Qed.

Lemma UpdateBits_whole_bytes (c : crc T) (data : list byte) n :
  0 <= n <= Z.of_nat (length data) ->
  UpdateBits data (8 * n) c = Update (take (Z.to_nat n) data) c.
Proof.
  intros Hn. rewrite UpdateBits_run, Update_run.
  replace (8 * n) with (8 * n + 0) by lia.
  rewrite tblUpd_bits by lia. cbn zeta. now rewrite Z.ltb_irrefl.
Qed.

End Chunks.

(** X4: an update with whole bytes followed by an update with [m] bits of a
    second buffer, [m] within that buffer, leaves the session as one update
    with the two buffers joined and the bit length [8*len(A) + m]. *)
Theorem update_then_update_bits {T} (c : crc T) (A B : list byte) m :
  0 <= m <= 8 * Z.of_nat (length B) ->
  (do_ Update A; UpdateBits B m) c =
    UpdateBits (A ++ B) (8 * Z.of_nat (length A) + m) c /\
  (do_ UpdateBits A (8 * Z.of_nat (length A)); UpdateBits B m) c =
    UpdateBits (A ++ B) (8 * Z.of_nat (length A) + m) c.
Proof.
  intros Hm. split; [now apply UpdateBits_composed|].
  rewrite <- UpdateBits_composed by exact Hm. unfold bind.
  rewrite UpdateBits_whole_bytes by lia. now rewrite Nat2Z.id, firstn_all.
Qed.

Lemma update_then_update_bits_witness :
  exists e : algo uint8,
    CRC5USB = Ret e /\
    (do_ Update [x31; x32]; UpdateBits [x33; x34; x35] 11) (NewCRC e) =
      UpdateBits ([x31; x32] ++ [x33; x34; x35])
                 (8 * Z.of_nat (length [x31; x32]) + 11) (NewCRC e) /\
    (do_ UpdateBits [x31; x32] (8 * Z.of_nat (length [x31; x32]));
     UpdateBits [x33; x34; x35] 11) (NewCRC e) =
      UpdateBits ([x31; x32] ++ [x33; x34; x35])
                 (8 * Z.of_nat (length [x31; x32]) + 11) (NewCRC e).
Proof.
  eexists. split; [vm_compute; reflexivity|].
  apply update_then_update_bits. cbn [length]. lia.
Defined.


(** X5: an update reads nothing beyond [bitLen]: bytes that follow the first
    [bitLen] bits of the buffer change nothing, and a [bitLen] of [8*n] is
    an update with the first [n] bytes. *)
Theorem update_bits_reads_prefix {T} (c : crc T) (data extra : list byte) bitLen :
  0 <= bitLen <= 8 * Z.of_nat (length data) ->
  UpdateBits (data ++ extra) bitLen c = UpdateBits data bitLen c /\
  (bitLen mod 8 = 0 ->
   UpdateBits (data ++ extra) bitLen c = Update (take (Z.to_nat (bitLen / 8)) data) c).
Proof.
  intros Hm. split; [now apply UpdateBits_prefix|]. intros Hmod.
  rewrite UpdateBits_prefix by exact Hm.
  pose proof (Z.div_mod bitLen 8 ltac:(lia)) as Hdm.
  rewrite Hdm at 1. rewrite Hmod, Z.add_0_r.
  apply UpdateBits_whole_bytes. lia.
Qed.

Lemma update_bits_reads_prefix_witness :
  exists e : algo uint8,
    CRC5USB = Ret e /\
    UpdateBits ([x31; x32] ++ [xff]) 16 (NewCRC e) = UpdateBits [x31; x32] 16 (NewCRC e) /\
    (16 mod 8 = 0 ->
     UpdateBits ([x31; x32] ++ [xff]) 16 (NewCRC e) =
     Update (take (Z.to_nat (16 / 8)) [x31; x32]) (NewCRC e)).
Proof.
  eexists. split; [vm_compute; reflexivity|].
  apply update_bits_reads_prefix. cbn [length]. lia.
Defined.

(** ** One bit at a time *)

Lemma rest_byte_0 {T} (e : algo T) b : rest_byte e b 0 = b.
Proof.
  unfold rest_byte. rewrite Z.shiftr_0_r, Z.shiftl_0_r.
  assert (byte_of_Z (byteZ b) = b) as E; [|now destruct (refin e)].
  unfold byte_of_Z, byteZ. pose proof (Byte.to_N_bounded b) as Hb.
  rewrite wrap_small by (unfold inT; simpl; lia).
  now rewrite N2Z.id, Byte.of_to_N.
Qed.

Lemma rest_byte_low_bits {T} (e : algo T) b k j :
  0 <= k -> 0 <= j -> k + j <= 8 ->
  Z.land (inbyte e (rest_byte e b k)) (Z.ones j) =
  Z.land (Z.shiftr (inbyte e b) k) (Z.ones j).
Proof.
  intros Hk Hj Hkj. bitwise i Hi. rewrite !inbyte_testbit by lia.
  rewrite (proj2 (Z.leb_le 0 i)) by lia. cbn [andb].
  destruct (Z.ltb_spec i j) as [Hlt|Hge]; [|now rewrite !andb_false_r].
  rewrite !andb_true_r. unfold rest_byte. rewrite byteZ_of_Z, testbit_wrap.
  simpl bitWidth.
  rewrite (proj2 (Z.ltb_lt i 8)), (proj2 (Z.ltb_lt (i + k) 8)) by lia. cbn [andb].
  destruct (refin e).
  - rewrite (proj2 (Z.ltb_lt i 8)) by lia. cbn [andb]. now rewrite Z.shiftr_spec by lia.
  - rewrite (proj2 (Z.ltb_lt (7 - i) 8)) by lia. cbn [andb].
    rewrite Z.shiftl_spec by lia. f_equal. lia.
Qed.

Ltac fold_rounds e :=
  repeat match goal with
  | |- context [Nat.iter (Z.to_nat ?n) (bit_round e) ?x] =>
      change (Nat.iter (Z.to_nat n) (bit_round e) x) with (rounds e n x)
  end.

(** Consuming [k] bits of a byte and then [j] more is consuming [k + j]. *)
Lemma bbbUpd_compose {T} (e : algo T) r b k j :
  0 <= k -> 0 <= j -> k + j <= 8 ->
  bbbUpd e (bbbUpd e r b k) (rest_byte e b k) j = bbbUpd e r b (k + j).
Proof.
  intros Hk Hj Hkj. rewrite !bbbUpd_rounds by lia.
  rewrite rest_byte_low_bits by lia.
  fold_rounds e. set (ib := inbyte e b).
  rewrite <- (rounds_shiftl e k (Z.land (Z.shiftr ib k) (Z.ones j))) at 1 by lia.
  rewrite <- rounds_xor, <- rounds_plus, Z.lxor_assoc by lia. do 2 f_equal.
  bitwise i Hi. rewrite !(proj2 (Z.leb_le 0 i)) by lia. cbn [andb].
  destruct (Z.ltb_spec i k) as [Hlt|Hge].
  - rewrite (Z.testbit_neg_r _ (i - k)) by lia.
    rewrite (proj2 (Z.ltb_lt i (k + j))) by lia. now rewrite xorb_false_r.
  - rewrite andb_false_r. cbn [xorb]. rewrite Z.shiftr_spec by lia.
    replace (i - k + k) with i by lia.
    rewrite (proj2 (Z.leb_le 0 (i - k))) by lia. cbn [andb].
    destruct (Z.ltb_spec (i - k) j), (Z.ltb_spec i (k + j)); try lia; reflexivity.
Qed.

Lemma bbbUpd_0 {T} (e : algo T) r b : bbbUpd e r b 0 = r.
Proof.
  rewrite bbbUpd_rounds by lia. change (Z.ones 0) with 0.
  rewrite Z.land_0_r, Z.lxor_0_r. reflexivity.
Qed.

Lemma UpdateBits_one_bit {T} (e : algo T) r x :
  UpdateBits [x] 1 (mk_crc e r) = (Ret tt, mk_crc e (bbbUpd e r x 1)).
Proof.
  rewrite UpdateBits_run. cbn [a reg].
  change 1 with (8 * Z.of_nat (length (@nil byte)) + 1) at 1.
  rewrite (tblUpd_partial e r [] x []) by lia. reflexivity.
Qed.

Lemma feed_bits_from {T} (e : algo T) r b (n : nat) k :
  0 <= k -> k + Z.of_nat n = 8 ->
  foldr (fun i m => do_ UpdateBits [rest_byte e b i] 1; m) (ret tt)
        (seqZ k (Z.of_nat n)) (mk_crc e (bbbUpd e r b k)) =
  (Ret tt, mk_crc e (bbbUpd e r b 8)).
Proof.
  revert k. induction n as [|n IH]; intros k Hk Hsum.
  - assert (k = 8) as -> by lia. reflexivity.
  - rewrite seqZ_cons by lia. cbn [foldr]. unfold bind at 1.
    rewrite UpdateBits_one_bit, bbbUpd_compose by lia.
    replace (Z.pred (Z.of_nat (S n))) with (Z.of_nat n) by lia.
    apply IH; lia.
Qed.

(** X6: in a session of an engine that [NewAlgo] returned, feeding the bytes
    of a buffer one bit at a time, by eight one-bit calls of [UpdateBits] per
    byte, leaves the session as [Update] with the buffer does. *)
Theorem bit_by_bit_is_update T w poly init xo ri ro (e : algo T) r (data : list byte) :
  NewAlgo T w poly init xo ri ro = Ret e ->
  feed_all_bits data (mk_crc e r) = Update data (mk_crc e r).
Proof.
  intros Hnew. pose proof (NewAlgo_table_ok _ _ _ _ _ _ _ Hnew) as Htbl.
  rewrite Update_run. cbn [a reg]. revert r.
  induction data as [|b data IH]; intros r; [reflexivity|].
  cbn [feed_all_bits foldr foldl]. unfold bind at 1.
  assert (feed_bits b (mk_crc e r) = (Ret tt, mk_crc e (tbl_round e r b))) as ->.
  { unfold feed_bits, bind at 1, get. cbn [a].
    pose proof (feed_bits_from e r b 8 0 ltac:(lia) ltac:(lia)) as H.
    rewrite bbbUpd_0 in H. change (Z.of_nat 8) with 8 in H.
    now rewrite H, tbl_round_bbbUpd. }
  apply IH.
Qed.

Lemma bit_by_bit_is_update_witness :
  exists e : algo uint8,
    CRC8SMBUS = Ret e /\
    feed_all_bits [x31; x32; x33] (mk_crc e 0x5a) = Update [x31; x32; x33] (mk_crc e 0x5a).
Proof.
  eexists. split; [vm_compute; reflexivity|].
  apply (bit_by_bit_is_update uint8 8 0x07 0x00 0x00 false false). vm_compute. reflexivity.
Defined.


(** ** The empty input *)

(** X7: the CRC of the empty input is [init xor xorout], with [init]
    reflected over [width] bits when [refout] is set; and an update with no
    bits, or with an empty buffer, leaves any session as it was. *)
Theorem crc_of_empty_input T w poly init xo ri ro (e : algo T) :
  NewAlgo T w poly init xo ri ro = Ret e ->
  0 <= init ->
  Calc e [] = Ret (Z.lxor (if ro then reflect T init w else init) xo) /\
  (forall (c : crc T) data, UpdateBits data 0 c = (Ret tt, c)) /\
  (forall c : crc T, Update [] c = (Ret tt, c)).
Proof.
  intros Hnew Hinit.
  destruct (NewAlgo_fields _ _ _ _ _ _ _ Hnew) as (Hw & _ & HI & HX & _ & Hro).
  destruct (NewAlgo_valid _ _ _ _ _ _ _ Hnew) as (Hwidth & _ & Hilt & _).
  split; [|split].
  - unfold Calc. rewrite CalcBits_run, tblUpd_whole by lia. cbn [foldl].
    rewrite Hro, HX, Hw, HI. destruct ro; [reflexivity|].
    rewrite reflect_reflect by lia. reflexivity.
  - intros c data. rewrite UpdateBits_run.
    change 0 with (8 * 0 + 0) at 1. rewrite tblUpd_bits by lia.
    cbn. now destruct c.
  - intros c. rewrite Update_run. cbn. now destruct c.
Qed.

Lemma crc_of_empty_input_witness :
  exists e : algo uint8,
    CRC5USB = Ret e /\
    Calc e [] = Ret (Z.lxor (if true then reflect uint8 0x1f 5 else 0x1f) 0x1f) /\
    (forall (c : crc uint8) data, UpdateBits data 0 c = (Ret tt, c)) /\
    (forall c : crc uint8, Update [] c = (Ret tt, c)).
Proof.
  eexists. split; [vm_compute; reflexivity|].
  apply (crc_of_empty_input uint8 5 0x05 0x1f 0x1f true true);
    [vm_compute; reflexivity|lia].
Defined.

(** ** The difference of two CRCs *)

Lemma lxor_cancel a b x : Z.lxor (Z.lxor x a) (Z.lxor x b) = Z.lxor a b.
Proof.
  apply Z.bits_inj'. intros i _. rewrite !Z.lxor_spec.
  now destruct (Z.testbit x i), (Z.testbit a i), (Z.testbit b i).
Qed.

Lemma lxor_cancel_r a b x : Z.lxor (Z.lxor a x) (Z.lxor b x) = Z.lxor a b.
Proof.
  apply Z.bits_inj'. intros i _. rewrite !Z.lxor_spec.
  now destruct (Z.testbit x i), (Z.testbit a i), (Z.testbit b i).
Qed.

Lemma inbyte_xor {T} (e : algo T) x y :
  inbyte e (byte_of_Z (Z.lxor (byteZ x) (byteZ y))) = Z.lxor (inbyte e x) (inbyte e y).
Proof.
  bitwise i Hi. rewrite !inbyte_testbit by lia.
  rewrite byteZ_of_Z, testbit_wrap, Z.lxor_spec. simpl bitWidth.
  destruct (Z.ltb_spec i 8) as [Hlt|Hge]; [|reflexivity]. cbn [andb].
  destruct (refin e).
  - now rewrite (proj2 (Z.ltb_lt i 8)) by lia.
  - now rewrite (proj2 (Z.ltb_lt (7 - i) 8)) by lia.
Qed.

Lemma input_value_xor {T} (e : algo T) A B :
  length A = length B ->
  input_value e (xor_bytes A B) = Z.lxor (input_value e A) (input_value e B).
Proof.
  revert B. induction A as [|x A IH]; intros [|y B] Hlen; try discriminate.
  - reflexivity.
  - cbn [xor_bytes zip_with input_value]. fold (xor_bytes A B).
    rewrite IH by (cbn in Hlen; lia). rewrite inbyte_xor, Z.shiftl_lxor.
    apply Z.bits_inj'. intros i _. rewrite !Z.lxor_spec.
    now destruct (Z.testbit (inbyte e x) i), (Z.testbit (inbyte e y) i),
      (Z.testbit (Z.shiftl (input_value e A) 8) i),
      (Z.testbit (Z.shiftl (input_value e B) 8) i).
Qed.

Lemma length_xor_bytes A B : length A = length B -> length (xor_bytes A B) = length A.
Proof. intros H. unfold xor_bytes. rewrite length_zip_with. lia. Qed.

(** X8: for two inputs of the same length, the xor of their CRCs is the
    residue of a session started from register 0 and updated with the xor
    of the inputs: it depends on the difference of the inputs only, not on
    [init] or [xorout]. *)
Theorem crc_difference T w poly init xo ri ro (e : algo T) (A B : list byte) :
  NewAlgo T w poly init xo ri ro = Ret e ->
  length A = length B ->
  exists vA vB d,
    Calc e A = Ret vA /\ Calc e B = Ret vB /\
    fst ((do_ Update (xor_bytes A B); Residue) (mk_crc e 0)) = Ret d /\
    Z.lxor vA vB = d.
Proof.
  intros Hnew Hlen. pose proof (NewAlgo_table_ok _ _ _ _ _ _ _ Hnew) as Htbl.
  destruct (NewAlgo_fields _ _ _ _ _ _ _ Hnew) as (Hw & _).
  destruct (NewAlgo_valid _ _ _ _ _ _ _ Hnew) as (Hwidth & _).
  do 3 eexists. unfold Calc. rewrite !CalcBits_run, !tblUpd_whole by lia.
  unfold bind. rewrite Update_run, Residue_run. cbn [fst a reg].
  repeat split. rewrite lxor_cancel_r.
  rewrite !foldl_tbl_round_rounds by exact Htbl.
  rewrite length_xor_bytes, input_value_xor, Z.lxor_0_l by exact Hlen.
  rewrite <- Hlen.
  rewrite <- (lxor_cancel (input_value e A) (input_value e B) (refInit e)).
  rewrite (rounds_xor e _ (Z.lxor (refInit e) (input_value e A))).
  destruct (refout e); [reflexivity|]. rewrite Hw. symmetry. apply reflect_lxor. lia.
Qed.

Lemma crc_difference_witness :
  exists e : algo uint8,
    CRC5USB = Ret e /\
    exists vA vB d,
      Calc e [x61; x62; x63] = Ret vA /\ Calc e [x61; x62; x64] = Ret vB /\
      fst ((do_ Update (xor_bytes [x61; x62; x63] [x61; x62; x64]); Residue) (mk_crc e 0))
        = Ret d /\
      Z.lxor vA vB = d.
Proof.
  eexists. split; [vm_compute; reflexivity|].
  apply (crc_difference uint8 5 0x05 0x1f 0x1f true true);
    [vm_compute; reflexivity|reflexivity].
Defined.


(** ** The accelerator table *)

Lemma table_index_xor {T} (e : algo T) (i j : byte) :
  table_ok e ->
  index (table e) (Z.lxor (byteZ i) (byteZ j)) =
  Z.lxor (index (table e) (byteZ i)) (index (table e) (byteZ j)).
Proof.
  intros Htbl. pose proof (byteZ_range i) as Hi. pose proof (byteZ_range j) as Hj.
  rewrite !Htbl by (try apply (lxor_range 8); lia). apply rounds_lxor.
Qed.

Lemma NewAlgo_table_same {T} w poly init xo ri ro init' xo' ri' ro' (e e' : algo T) :
  NewAlgo T w poly init xo ri ro = Ret e ->
  NewAlgo T w poly init' xo' ri' ro' = Ret e' ->
  table e' = table e.
Proof.
  intros Hnew Hnew'.
  pose proof (NewAlgo_table_ok _ _ _ _ _ _ _ Hnew) as Htbl.
  pose proof (NewAlgo_table_ok _ _ _ _ _ _ _ Hnew') as Htbl'.
  pose proof (NewAlgo_table_length _ _ _ _ _ _ _ Hnew) as Hlen.
  pose proof (NewAlgo_table_length _ _ _ _ _ _ _ Hnew') as Hlen'.
  destruct (NewAlgo_fields _ _ _ _ _ _ _ Hnew) as (_ & HP & _).
  destruct (NewAlgo_fields _ _ _ _ _ _ _ Hnew') as (_ & HP' & _).
  apply list_eq. intros k.
  destruct (decide (k < 256)%nat) as [Hk|Hk].
  - assert (Hidx : index (table e') (Z.of_nat k) = index (table e) (Z.of_nat k)).
    { rewrite Htbl, Htbl' by lia. apply rounds_ext. congruence. }
    unfold index in Hidx. rewrite Nat2Z.id in Hidx.
    destruct (lookup_lt_is_Some_2 (table e) k ltac:(lia)) as [x Hx].
    destruct (lookup_lt_is_Some_2 (table e') k ltac:(lia)) as [x' Hx'].
    rewrite Hx, Hx' in Hidx |- *. cbn in Hidx. congruence.
  - rewrite !lookup_ge_None_2 by lia. reflexivity.
Qed.

(** X9: in every engine that [NewAlgo] returns, the table is linear over
    xor, [table[i ^ j] = table[i] ^ table[j]], and its contents depend on
    the integer type, the width and the polynomial only: engines that differ
    in [init], [xorout], [refin] or [refout] have equal tables. *)
Theorem table_linear_and_shared T w poly init xo ri ro init' xo' ri' ro' (e e' : algo T) :
  NewAlgo T w poly init xo ri ro = Ret e ->
  NewAlgo T w poly init' xo' ri' ro' = Ret e' ->
  (forall i j : byte,
     index (table e) (Z.lxor (byteZ i) (byteZ j)) =
     Z.lxor (index (table e) (byteZ i)) (index (table e) (byteZ j))) /\
  table e' = table e.
Proof.
  intros Hnew Hnew'. split.
  - intros i j. apply table_index_xor. exact (NewAlgo_table_ok _ _ _ _ _ _ _ Hnew).
  - exact (NewAlgo_table_same _ _ _ _ _ _ _ _ _ _ _ _ Hnew Hnew').
Qed.

Lemma table_linear_and_shared_witness :
  exists e e' : algo uint8,
    CRC8SMBUS = Ret e /\
    NewAlgo uint8 8 0x07 0xff 0x55 true true = Ret e' /\
    (forall i j : byte,
       index (table e) (Z.lxor (byteZ i) (byteZ j)) =
       Z.lxor (index (table e) (byteZ i)) (index (table e) (byteZ j))) /\
    table e' = table e.
Proof.
  do 2 eexists. split; [vm_compute; reflexivity|]. split; [vm_compute; reflexivity|].
  apply (table_linear_and_shared uint8 8 0x07 0x00 0x00 false false 0xff 0x55 true true);
    vm_compute; reflexivity.
Defined.

(** ** Codewords *)

Section Codeword.

Context {T : UInt} (e : algo T).

Lemma input_value_testbit data t :
  0 <= t ->
  Z.testbit (input_value e data) t =
  match data !! Z.to_nat (t / 8) with
  | Some b => Z.testbit (inbyte e b) (t mod 8)
  | None => false
  end.
Proof.
  revert t. induction data as [|b data IH]; intros t Ht.
  - cbn [input_value]. rewrite Z.bits_0. now rewrite lookup_nil.
  - cbn [input_value]. rewrite Z.lxor_spec.
    pose proof (inbyte_range e b) as Hb. change 256 with (2 ^ 8) in Hb.
    apply range_bits in Hb as [_ Hb]; [|lia].
    destruct (Z.ltb_spec t 8) as [Hlt|Hge].
    + rewrite Z.shiftl_spec_low by lia. rewrite xorb_false_r.
      rewrite Z.div_small, Z.mod_small by lia. reflexivity.
    + rewrite Hb by lia. cbn [xorb]. rewrite Z.shiftl_spec, IH by lia.
      assert (Hd : t / 8 = (t - 8) / 8 + 1)
        by (rewrite <- Z.div_add by lia; f_equal; lia).
      assert (Hm : t mod 8 = (t - 8) mod 8)
        by (rewrite <- (Z.mod_add (t - 8) 1 8) by lia; f_equal; lia).
      rewrite Hd, Hm.
      assert (0 <= (t - 8) / 8) by (apply Z.div_pos; lia).
      replace (Z.to_nat ((t - 8) / 8 + 1)) with (S (Z.to_nat ((t - 8) / 8))) by lia.
      reflexivity.
Qed.

Lemma le_bytes_lookup (n j : nat) v :
  (j < n)%nat -> le_bytes n v !! j = Some (byte_of_Z (Z.shiftr v (8 * Z.of_nat j))).
Proof.
  revert j v. induction n as [|n IH]; intros j v Hj; [lia|].
  destruct j as [|j]; cbn [le_bytes lookup list_lookup].
  - now rewrite Z.shiftr_0_r.
  - rewrite IH by lia. rewrite Z.shiftr_shiftr by lia. do 3 f_equal. lia.
Qed.

Lemma be_bytes_lookup (n j : nat) v :
  (j < n)%nat ->
  be_bytes n v !! j = Some (byte_of_Z (Z.shiftr v (8 * (Z.of_nat n - 1 - Z.of_nat j)))).
Proof.
  revert j. induction n as [|n IH]; intros j Hj; [lia|].
  destruct j as [|j]; cbn [be_bytes lookup list_lookup].
  - do 3 f_equal. lia.
  - rewrite IH by lia. do 3 f_equal. lia.
Qed.

Lemma length_le_bytes n v : length (le_bytes n v) = n.
Proof. revert v. induction n as [|n IH]; intros v; cbn; [reflexivity|now rewrite IH]. Qed.

Lemma length_be_bytes n v : length (be_bytes n v) = n.
Proof. induction n as [|n IH]; cbn; [reflexivity|now rewrite IH]. Qed.

Lemma length_crc_bytes v : length (crc_bytes e v) = Z.to_nat ((width e + 7) / 8).
Proof.
  unfold crc_bytes. destruct (refin e); [apply length_le_bytes|apply length_be_bytes].
Qed.

(** The first [width] bits that the engine reads from the bytes of a CRC
    value are the value, from its least significant bit with [refin] and
    from its most significant bit without. *)
Lemma crc_bytes_value v :
  0 < width e <= bitWidth T -> 0 <= v < 2 ^ width e ->
  Z.land (input_value e (crc_bytes e v)) (Z.ones (width e)) =
  if refin e then v else reflect T v (width e).
Proof.
  intros Hw Hv. apply range_bits in Hv as [Hv0 Hv]; [|lia].
  set (w := width e) in *.
  assert (Hn : w <= 8 * ((w + 7) / 8) < w + 8).
  { pose proof (Z.div_mod (w + 7) 8 ltac:(lia)).
    pose proof (Z.mod_pos_bound (w + 7) 8 ltac:(lia)). lia. }
  apply Z.bits_inj'. intros t Ht.
  rewrite Z.land_spec, Z.testbit_ones, input_value_testbit by lia.
  rewrite (proj2 (Z.leb_le 0 t)) by lia. cbn [andb].
  destruct (Z.ltb_spec t w) as [Hlt|Hge].
  2:{ rewrite andb_false_r. destruct (refin e).
      - now rewrite Hv by lia.
      - rewrite reflect_testbit by lia. now rewrite (proj2 (Z.ltb_ge t w)) by lia. }
  rewrite andb_true_r.
  pose proof (Z.div_mod t 8 ltac:(lia)) as Hdm.
  pose proof (Z.mod_pos_bound t 8 ltac:(lia)) as Hm.
  assert (0 <= t / 8) as Hq by (apply Z.div_pos; lia).
  assert (Hj : (Z.to_nat (t / 8) < Z.to_nat ((w + 7) / 8))%nat) by lia.
  set (n := Z.to_nat ((w + 7) / 8)) in *.
  assert (Hnz : Z.of_nat n = (w + 7) / 8) by lia.
  set (j := Z.to_nat (t / 8)) in *.
  assert (Hjz : Z.of_nat j = t / 8) by lia.
  set (m := t mod 8) in *.
  unfold crc_bytes. fold w. fold n. destruct (refin e) eqn:Hrefin.
  - rewrite le_bytes_lookup by exact Hj.
    rewrite inbyte_testbit, Hrefin, byteZ_of_Z, testbit_wrap by lia.
    simpl bitWidth. rewrite (proj2 (Z.ltb_lt m 8)) by lia. cbn [andb].
    rewrite Z.shiftr_spec by lia. f_equal. lia.
  - rewrite be_bytes_lookup by exact Hj.
    rewrite inbyte_testbit, Hrefin, byteZ_of_Z, testbit_wrap by lia.
    simpl bitWidth.
    rewrite (proj2 (Z.ltb_lt m 8)), (proj2 (Z.ltb_lt (7 - m) 8)) by lia. cbn [andb].
    rewrite Z.shiftr_spec, Z.shiftl_spec by lia.
    rewrite reflect_testbit by lia.
    rewrite (proj2 (Z.ltb_lt t w)) by lia. cbn [andb]. f_equal. lia.
Qed.

End Codeword.

(** X10: in every engine that [NewAlgo] returns with [refin = refout], a
    fresh session updated with a message followed by the CRC of the message,
    [width] bits in the bit order of the engine, has the residue
    [codeword_residue], whatever the message and whatever [init]. *)
Theorem codeword_has_constant_residue T w poly init xo ri ro (e : algo T) (data : list byte) :
  NewAlgo T w poly init xo ri ro = Ret e ->
  ri = ro -> 0 <= xo ->
  exists v,
    Calc e data = Ret v /\
    fst ((do_ UpdateBits (data ++ crc_bytes e v) (8 * Z.of_nat (length data) + w);
          Residue) (NewCRC e)) = Ret (codeword_residue e).
Proof.
  intros Hnew Hrr Hxo.
  pose proof (NewAlgo_table_ok _ _ _ _ _ _ _ Hnew) as Htbl.
  destruct (NewAlgo_fields _ _ _ _ _ _ _ Hnew) as (Hw & HP & HI & HX & Hri & Hro).
  destruct (NewAlgo_valid _ _ _ _ _ _ _ Hnew) as (Hwidth & _ & _ & Hxlt).
  assert (HPr : 0 <= refPoly e < 2 ^ w) by (rewrite HP; apply reflect_range; lia).
  assert (Hinit : 0 <= refInit e < 2 ^ w) by (rewrite HI; apply reflect_range; lia).
  eexists. split; [unfold Calc; rewrite CalcBits_run, tblUpd_whole by lia; reflexivity|].
  set (R := foldl (tbl_round e) (refInit e) data).
  assert (HR : 0 <= R < 2 ^ w).
  { apply (tblUpd_below e w ltac:(lia) HPr (refInit e) data (-1) R Htbl Hinit).
    now rewrite tblUpd_whole by lia. }
  set (v := Z.lxor (if refout e then R else reflect T R (width e)) (xorout e)).
  assert (Hv : 0 <= v < 2 ^ w).
  { apply lxor_range; [lia| |rewrite HX; lia].
    destruct (refout e); [exact HR|]. rewrite Hw. apply reflect_range; lia. }
  assert (Hn : w <= 8 * ((w + 7) / 8)).
  { pose proof (Z.div_mod (w + 7) 8 ltac:(lia)).
    pose proof (Z.mod_pos_bound (w + 7) 8 ltac:(lia)). lia. }
  assert (0 <= (w + 7) / 8) by (apply Z.div_pos; lia).
  unfold bind at 1.
  rewrite <- UpdateBits_composed by (rewrite length_crc_bytes, Hw; lia).
  unfold bind. rewrite Update_run. cbn [a reg NewCRC]. fold R.
  rewrite UpdateBits_run. cbn [a reg].
  rewrite (tblUpd_rounds e Htbl) by (rewrite length_crc_bytes, Hw; lia).
  rewrite Residue_run. cbn [fst a reg].
  pose proof (crc_bytes_value e v ltac:(rewrite Hw; lia) ltac:(rewrite Hw; lia)) as Hcb.
  rewrite Hw in Hcb. rewrite Hcb. clear Hcb.
  unfold codeword_residue. subst v. rewrite Hw, HX, Hri, Hro, <- Hrr.
  destruct ri.
  - rewrite <- Z.lxor_assoc, Z.lxor_nilpotent, Z.lxor_0_l. reflexivity.
  - rewrite reflect_lxor, reflect_reflect by lia.
    rewrite <- Z.lxor_assoc, Z.lxor_nilpotent, Z.lxor_0_l. reflexivity.
Qed.

Lemma codeword_has_constant_residue_witness :
  exists e : algo uint32,
    CRC32ISOHDLC = Ret e /\
    codeword_residue e = 0xdebb20e3 /\
    exists v,
      Calc e (list_byte_of_string "123456789") = Ret v /\
      fst ((do_ UpdateBits (list_byte_of_string "123456789" ++ crc_bytes e v)
                           (8 * Z.of_nat (length (list_byte_of_string "123456789")) + 32);
            Residue) (NewCRC e)) = Ret (codeword_residue e).
Proof.
  eexists. split; [vm_compute; reflexivity|]. split; [vm_compute; reflexivity|].
  apply (codeword_has_constant_residue uint32 32 0x04c11db7 0xffffffff 0xffffffff true true);
    [vm_compute; reflexivity|reflexivity|lia].
Defined.

(** ** Presets *)

(** X11: [newPreset] refuses exactly the parameters that [NewAlgo] refuses,
    with the same error, and a preset it returns holds no engine yet;
    [mustNewPreset] panics exactly on the parameters [checkParams] refuses
    and returns the preset otherwise. *)
Theorem newPreset_validates T w poly init xo ri ro :
  (forall err, newPreset T w poly init xo ri ro = Err err <->
               NewAlgo T w poly init xo ri ro = Err err) /\
  ((exists pr, newPreset T w poly init xo ri ro = Ret pr) <->
   (exists e, NewAlgo T w poly init xo ri ro = Ret e)) /\
  (forall pr, newPreset T w poly init xo ri ro = Ret pr ->
              pr = mk_preset w poly init xo ri ro None false) /\
  ((exists msg, mustNewPreset T w poly init xo ri ro = Panic msg) <->
   invalid_params T w poly init xo) /\
  (mustNewPreset T w poly init xo ri ro = Ret (mk_preset w poly init xo ri ro None false) <->
   ~ invalid_params T w poly init xo).
Proof.
  unfold mustNewPreset, newPreset, NewAlgo.
  destruct (checkParams_cases T w poly init xo) as [[Hbad [msg ->]]|[Hok ->]].
  - split; [|split; [|split; [|split]]].
    + intros err. split; intros [= <-]; reflexivity.
    + split; intros [x H]; discriminate.
    + discriminate.
    + split; [intros _; exact Hbad|intros _; now exists msg].
    + split; [discriminate|intros Hn; contradiction].
  - split; [|split; [|split; [|split]]].
    + intros err. split; discriminate.
    + split; intros _; eexists; reflexivity.
    + now intros pr [= <-].
    + split; [intros [msg H]; discriminate|intros Hbad; contradiction].
    + split; [intros _; exact Hok|reflexivity].
Qed.

Lemma newPreset_Ret T w poly init xo ri ro (pr : preset T) :
  newPreset T w poly init xo ri ro = Ret pr ->
  pr = mk_preset w poly init xo ri ro None false /\
  exists e, NewAlgo T w poly init xo ri ro = Ret e.
Proof.
  unfold newPreset, NewAlgo. destruct (checkParams T w poly init xo); [discriminate|].
  intros [= <-]. split; [reflexivity|eexists; reflexivity].
Qed.

(** X12: on a preset that [newPreset] returned, the first call of a method
    builds the engine that [NewAlgo] returns for the parameters and stores
    it; every later call finds the preset unchanged and uses the same
    engine; the values are those of the engine; no call panics with
    "invalid CRC preset" or on a nil engine. *)
Theorem preset_builds_engine_once T w poly init xo ri ro (pr : preset T) :
  newPreset T w poly init xo ri ro = Ret pr ->
  exists e,
    NewAlgo T w poly init xo ri ro = Ret e /\
    let built := mk_preset w poly init xo ri ro (Some e) true in
    forall p, p = pr \/ p = built ->
      preset_Algo p = (Ret (Some e), built) /\
      preset_NewCRC p = (Ret (NewCRC e), built) /\
      (forall data, preset_Calc data p = (Calc e data, built)) /\
      (forall data bitLen, preset_CalcBits data bitLen p = (CalcBits e data bitLen, built)).
Proof.
  intros Hpr.
  destruct (newPreset_Ret _ _ _ _ _ _ _ _ Hpr) as [-> [e He]].
  exists e. split; [exact He|]. cbn zeta.
  assert (HA : forall p, p = mk_preset w poly init xo ri ro None false \/
                         p = mk_preset w poly init xo ri ro (Some e) true ->
               preset_Algo p = (Ret (Some e), mk_preset w poly init xo ri ro (Some e) true)).
  { intros p [-> | ->]; unfold preset_Algo; cbn; [now rewrite He|reflexivity]. }
  intros p Hp. specialize (HA p Hp).
  unfold preset_NewCRC, preset_Calc, preset_CalcBits, on_Algo. rewrite HA.
  repeat split.
Qed.

Lemma preset_builds_engine_once_witness :
  exists e,
    NewAlgo uint8 5 0x05 0x1f 0x1f true true = Ret e /\
    forall p,
      p = mk_preset 5 0x05 0x1f 0x1f true true None false \/
      p = mk_preset 5 0x05 0x1f 0x1f true true (Some e) true ->
      preset_Algo p = (Ret (Some e), mk_preset 5 0x05 0x1f 0x1f true true (Some e) true) /\
      preset_NewCRC p =
        (Ret (NewCRC e), mk_preset 5 0x05 0x1f 0x1f true true (Some e) true) /\
      (forall data,
         preset_Calc data p =
         (Calc e data, mk_preset 5 0x05 0x1f 0x1f true true (Some e) true)) /\
      (forall data bitLen,
         preset_CalcBits data bitLen p =
         (CalcBits e data bitLen, mk_preset 5 0x05 0x1f 0x1f true true (Some e) true)).
Proof.
  apply (preset_builds_engine_once uint8 5 0x05 0x1f 0x1f true true). reflexivity.
Defined.

(** ** The tests of the package pass *)

(** X13: the tests of the package pass: on every row of the table of
    [TestCRC] and [TestResidue] the preset, one of the 111 of the catalogue,
    is built without a panic and gives its check value on ["123456789"] and
    its residue on its codeword; and [Example] prints [0x19], [0x19] and
    [0x4e4c]. *)
Theorem package_tests_pass :
  length presets = 111%nat /\
  forallb TestCRC_row presets = true /\
  forallb TestResidue_row presets = true /\
  Example_test = Ret (0x19, 0x19, 0x4e4c).
Proof. vm_compute. repeat split. Qed.

(** X14: every codeword of the test table whose preset has
    [refin = refout], all but the one of CRC-12/UMTS, is the name of the
    preset followed by the CRC of the name laid out as [crc_bytes] does; its
    bit length is that of the name plus [width], and the residue of the
    table is [codeword_residue]. *)
Theorem test_codewords_are_crc_bytes :
  forallb row_is_codeword presets = true /\
  map row_name
      (List.filter (fun p =>
         match row_preset p with
         | Ret pr => negb (eqb (p_refin pr) (p_refout pr))
         | _ => true
         end) presets) = ["CRC12UMTS"].
Proof. vm_compute. repeat split. Qed.

(** ** Updates concatenate bit streams *)

(** X15: in every engine that [NewAlgo] returns, an update with the first
    [m1] bits of one buffer followed by an update with the first [m2] bits
    of another is [m1 + m2] rounds on the register xor the two bit strings
    put one after the other, wherever in a byte the first one ends. *)
Theorem update_bits_concatenate T w poly init xo ri ro (e : algo T) r (A B : list byte) m1 m2 :
  NewAlgo T w poly init xo ri ro = Ret e ->
  0 <= m1 <= 8 * Z.of_nat (length A) ->
  0 <= m2 <= 8 * Z.of_nat (length B) ->
  (do_ UpdateBits A m1; UpdateBits B m2) (mk_crc e r) =
  (Ret tt,
   mk_crc e
     (rounds e (m1 + m2)
        (Z.lxor r
           (Z.lxor (Z.land (input_value e A) (Z.ones m1))
                   (Z.shiftl (Z.land (input_value e B) (Z.ones m2)) m1))))).
Proof.
  intros Hnew Hm1 Hm2. pose proof (NewAlgo_table_ok _ _ _ _ _ _ _ Hnew) as Htbl.
  unfold bind. rewrite UpdateBits_run. cbn [a reg].
  rewrite (tblUpd_rounds e Htbl) by exact Hm1.
  rewrite UpdateBits_run. cbn [a reg].
  rewrite (tblUpd_rounds e Htbl) by exact Hm2.
  rewrite <- (rounds_shiftl e m1 (Z.land (input_value e B) (Z.ones m2))) at 1 by lia.
  rewrite <- rounds_xor, <- rounds_plus, Z.lxor_assoc by lia. reflexivity.
Qed.

Lemma update_bits_concatenate_witness :
  exists e : algo uint8,
    CRC5USB = Ret e /\
    (do_ UpdateBits [x31; x32] 11; UpdateBits [x33] 5) (mk_crc e 0x1f) =
    (Ret tt,
     mk_crc e
       (rounds e (11 + 5)
          (Z.lxor 0x1f
             (Z.lxor (Z.land (input_value e [x31; x32]) (Z.ones 11))
                     (Z.shiftl (Z.land (input_value e [x33]) (Z.ones 5)) 11))))).
Proof.
  eexists. split; [vm_compute; reflexivity|].
  apply (update_bits_concatenate uint8 5 0x05 0x1f 0x1f true true);
    [vm_compute; reflexivity|cbn [length]; lia|cbn [length]; lia].
Defined.

(** ** Leading zero bytes *)

Lemma zero_bytes_keep_zero {T} (e : algo T) (n : nat) :
  table_ok e -> foldl (tbl_round e) 0 (replicate n x00) = 0.
Proof.
  intros Htbl. induction n as [|n IH]; [reflexivity|].
  cbn [replicate foldl]. rewrite tbl_round_bbbUpd, bbbUpd_x00 by exact Htbl.
  rewrite (rounds_shift e 8 0) by (intros; apply Z.bits_0). exact IH.
Qed.

(** X16: in an engine that [NewAlgo] returns for [init = 0], zero bytes in
    front of the input do not change the CRC. *)
Theorem leading_zero_bytes_unseen T w poly xo ri ro (e : algo T) (n : nat) (data : list byte) :
  NewAlgo T w poly 0 xo ri ro = Ret e ->
  Calc e (replicate n x00 ++ data) = Calc e data.
Proof.
  intros Hnew. pose proof (NewAlgo_table_ok _ _ _ _ _ _ _ Hnew) as Htbl.
  destruct (NewAlgo_fields _ _ _ _ _ _ _ Hnew) as (_ & _ & HI & _).
  destruct (NewAlgo_valid _ _ _ _ _ _ _ Hnew) as (Hwidth & _).
  assert (refInit e = 0) as Hzero.
  { rewrite HI. apply Z.bits_inj'. intros i Hi.
    rewrite reflect_testbit, !Z.bits_0 by lia. apply andb_false_r. }
  unfold Calc. rewrite !CalcBits_run, !tblUpd_whole by lia.
  now rewrite foldl_app, Hzero, zero_bytes_keep_zero.
Qed.

Lemma leading_zero_bytes_unseen_witness :
  exists e : algo uint8,
    CRC8SMBUS = Ret e /\
    Calc e (replicate 3 x00 ++ [x31; x32]) = Calc e [x31; x32].
Proof.
  eexists. split; [vm_compute; reflexivity|].
  apply (leading_zero_bytes_unseen uint8 8 0x07 0x00 false false). vm_compute. reflexivity.
Defined.

(** ** What [refin] and [refout] do *)

Lemma inbyte_reflected {T} (e e' : algo T) b :
  refin e = false -> refin e' = true ->
  inbyte e' (byte_of_Z (index reflectedBytes (byteZ b))) = inbyte e b.
Proof.
  intros Hf Ht. unfold inbyte. rewrite Hf, Ht. cbn [negb].
  rewrite byteZ_of_Z. apply wrap_small.
  rewrite reflectedBytes_index. pose proof (reflect_range uint8 (byteZ b) 8) as H.
  unfold inT. simpl bitWidth in *. apply H. lia.
Qed.

Lemma foldl_reflected {T} (e e' : algo T) r data :
  refin e = false -> refin e' = true -> table e' = table e ->
  foldl (tbl_round e') r (reflect_bytes data) = foldl (tbl_round e) r data.
Proof.
  intros Hf Ht Htab. revert r. induction data as [|b data IH]; intros r; [reflexivity|].
  cbn [reflect_bytes fmap list_fmap foldl].
  assert (tbl_round e' r (byte_of_Z (index reflectedBytes (byteZ b))) = tbl_round e r b)
    as ->; [|apply IH].
  unfold tbl_round. fold (inbyte e b).
  fold (inbyte e' (byte_of_Z (index reflectedBytes (byteZ b)))).
  now rewrite (inbyte_reflected e e'), Htab.
Qed.

(** X17: the engine without [refin] and [refout] is the mirror image of the
    engine with both: when [NewAlgo] returns an engine for each, with the
    same width, polynomial and initial value and with [xorout] reflected
    over [width] bits, the first leaves in the register, on a buffer, what
    the second leaves on the buffer with the bits of each byte reversed,
    and the CRC of the first is the CRC of the second, on that buffer,
    reflected over [width] bits. *)
Theorem mirrored_engine T w poly init xo (e e' : algo T) :
  NewAlgo T w poly init xo false false = Ret e ->
  NewAlgo T w poly init (reflect T xo w) true true = Ret e' ->
  0 <= xo ->
  (forall r data,
     reg (snd (Update data (mk_crc e r))) =
     reg (snd (Update (reflect_bytes data) (mk_crc e' r)))) /\
  (forall data,
     exists v, Calc e' (reflect_bytes data) = Ret v /\
               Calc e data = Ret (reflect T v w)).
Proof.
  intros Hnew Hnew' Hxo.
  pose proof (NewAlgo_table_same _ _ _ _ _ _ _ _ _ _ _ _ Hnew Hnew') as Htab.
  destruct (NewAlgo_fields _ _ _ _ _ _ _ Hnew) as (Hw & _ & HI & HX & Hri & Hro).
  destruct (NewAlgo_fields _ _ _ _ _ _ _ Hnew') as (Hw' & _ & HI' & HX' & Hri' & Hro').
  destruct (NewAlgo_valid _ _ _ _ _ _ _ Hnew) as (Hwidth & _ & _ & Hxo').
  split.
  - intros r data. rewrite !Update_run. cbn [snd reg a].
    symmetry. now apply foldl_reflected.
  - intros data. eexists. unfold Calc. rewrite !CalcBits_run, !tblUpd_whole by lia.
    rewrite Hro, Hro', Hw, HX, HX', HI, HI'. split; [reflexivity|].
    rewrite (foldl_reflected e e') by assumption.
    rewrite reflect_lxor, reflect_reflect by lia. reflexivity.
Qed.

Lemma mirrored_engine_witness :
  exists e e' : algo uint8,
    CRC8SMBUS = Ret e /\
    NewAlgo uint8 8 0x07 0x00 (reflect uint8 0x00 8) true true = Ret e' /\
    0 <= 0x00 /\
    (forall r data,
       reg (snd (Update data (mk_crc e r))) =
       reg (snd (Update (reflect_bytes data) (mk_crc e' r)))) /\
    (forall data,
       exists v, Calc e' (reflect_bytes data) = Ret v /\
                 Calc e data = Ret (reflect uint8 v 8)).
Proof.
  do 2 eexists. split; [vm_compute; reflexivity|]. split; [vm_compute; reflexivity|].
  split; [lia|].
  apply (mirrored_engine uint8 8 0x07 0x00 0x00); [vm_compute; reflexivity..|lia].
Defined.

(** ** Errors that the CRC detects *)

Section Detect.

Context {T : UInt} (e : algo T) (w : Z).
Hypothesis w_fits : 1 <= w.
Hypothesis refPoly_below : 0 <= refPoly e < 2 ^ w.
Hypothesis refPoly_top : Z.testbit (refPoly e) (w - 1) = true.

(** With the top bit of [refPoly] set, a round sends no register but 0
    to 0. *)
Lemma bit_round_nonzero r : 0 <= r < 2 ^ w -> r <> 0 -> bit_round e r <> 0.
Proof.
  intros Hr Hnz Hz. apply range_bits in Hr as [Hr0 Hr]; [|lia].
  rewrite bit_round_odd in Hz.
  assert (Hodd : Z.odd r = false).
  { pose proof (f_equal (fun z => Z.testbit z (w - 1)) Hz) as Hb. cbn beta in Hb.
    rewrite Z.lxor_spec, Z.shiftr_spec, Z.bits_0 in Hb by lia.
    rewrite Hr in Hb by lia. destruct (Z.odd r); [|reflexivity].
    rewrite refPoly_top in Hb. discriminate. }
  rewrite Hodd, Z.lxor_0_r in Hz. apply Hnz. apply Z.bits_inj'. intros i Hi.
  rewrite Z.bits_0. destruct (decide (i = 0)) as [->|Hi0].
  - now rewrite Z.bit0_odd.
  - pose proof (f_equal (fun z => Z.testbit z (i - 1)) Hz) as Hb. cbn beta in Hb.
    rewrite Z.shiftr_spec, Z.bits_0 in Hb by lia.
    now replace (i - 1 + 1) with i in Hb by lia.
Qed.

Lemma rounds_nonzero n r : 0 <= r < 2 ^ w -> r <> 0 -> rounds e n r <> 0 /\ 0 <= rounds e n r < 2 ^ w.
Proof.
  intros Hr Hnz. unfold rounds. induction (Z.to_nat n) as [|k [IHnz IHr]].
  - split; assumption.
  - rewrite Nat.iter_succ. split.
    + now apply bit_round_nonzero.
    + pose proof (bit_round_below e w ltac:(lia) refPoly_below w _ ltac:(lia) IHr) as H.
      now rewrite Z.max_l in H by lia.
Qed.

(** Two inputs of the same length whose bits differ within a window of [w]
    bits leave different registers. *)
Lemma burst_registers r (A B : list byte) b s :
  table_ok e -> length A = length B -> 0 <= s -> 0 < b < 2 ^ w ->
  Z.lxor (input_value e A) (input_value e B) = Z.shiftl b s ->
  exists rA rB d,
    tblUpd e r A (-1) = Ret rA /\ tblUpd e r B (-1) = Ret rB /\
    Z.lxor rA rB = d /\ d <> 0 /\ 0 <= d < 2 ^ w.
Proof.
  intros Htbl Hlen Hs Hb Hdiff.
  rewrite !(tblUpd_negative e Htbl) by lia. do 3 eexists.
  split; [reflexivity|]. split; [reflexivity|]. split; [reflexivity|].
  rewrite <- Hlen, <- rounds_xor, lxor_cancel, Hdiff.
  set (n := 8 * Z.of_nat (length A)).
  assert (Hsn : s <= n).
  { pose proof (input_value_range e A) as HA. pose proof (input_value_range e B) as HB.
    fold n in HA. rewrite <- Hlen in HB. fold n in HB.
    apply range_bits in HA as [_ HA]; [|lia]. apply range_bits in HB as [_ HB]; [|lia].
    destruct (Z.le_gt_cases s n) as [H|H]; [exact H|exfalso].
    assert (Z.shiftl b s = 0) as Hzero.
    { apply Z.bits_inj'. intros i Hi. rewrite Z.bits_0.
      destruct (Z.lt_ge_cases i n) as [Hlt|Hge].
      - apply Z.shiftl_spec_low. lia.
      - now rewrite <- Hdiff, Z.lxor_spec, HA, HB by lia. }
    apply Z.shiftl_eq_0_iff in Hzero; lia. }
  replace n with (s + (n - s)) by lia.
  rewrite rounds_plus, rounds_shiftl by lia.
  apply rounds_nonzero; lia.
Qed.

End Detect.

Lemma reflect_0 T n : 1 <= n <= bitWidth T -> reflect T 0 n = 0.
Proof.
  intros Hn. apply Z.bits_inj'. intros i Hi.
  rewrite reflect_testbit, !Z.bits_0 by lia. apply andb_false_r.
Qed.

(** Different registers give different results. *)
Lemma results_differ {T} (e : algo T) rA rB :
  1 <= width e <= bitWidth T ->
  Z.lxor rA rB <> 0 -> 0 <= Z.lxor rA rB < 2 ^ width e ->
  Z.lxor (if refout e then rA else reflect T rA (width e)) (xorout e) <>
  Z.lxor (if refout e then rB else reflect T rB (width e)) (xorout e).
Proof.
  intros Hw Hnz Hd Heq.
  pose proof (Z.lxor_nilpotent
    (Z.lxor (if refout e then rB else reflect T rB (width e)) (xorout e))) as Hz.
  rewrite <- Heq in Hz at 1. rewrite lxor_cancel_r in Hz. clear Heq.
  destruct (refout e); [contradiction|]. rename Hz into Heq.
  rewrite <- reflect_lxor in Heq by lia. apply Hnz.
  rewrite <- (reflect_reflect T (Z.lxor rA rB) (width e)) by lia.
  rewrite Heq. now apply reflect_0.
Qed.

Lemma detected {T} w poly init xo ri ro (e : algo T) (A B : list byte) b s :
  NewAlgo T w poly init xo ri ro = Ret e ->
  Z.odd poly = true ->
  length A = length B ->
  0 <= s -> 0 < b < 2 ^ w ->
  Z.lxor (input_value e A) (input_value e B) = Z.shiftl b s ->
  exists vA vB, Calc e A = Ret vA /\ Calc e B = Ret vB /\ vA <> vB.
Proof.
  intros Hnew Hodd Hlen Hs Hb Hdiff.
  pose proof (NewAlgo_table_ok _ _ _ _ _ _ _ Hnew) as Htbl.
  destruct (NewAlgo_fields _ _ _ _ _ _ _ Hnew) as (Hw & HP & _).
  destruct (NewAlgo_valid _ _ _ _ _ _ _ Hnew) as (Hwidth & _).
  assert (HPr : 0 <= refPoly e < 2 ^ w) by (rewrite HP; apply reflect_range; lia).
  assert (HPt : Z.testbit (refPoly e) (w - 1) = true).
  { rewrite HP, reflect_testbit by lia.
    rewrite (proj2 (Z.ltb_lt (w - 1) w)) by lia.
    replace (w - 1 - (w - 1)) with 0 by lia. now rewrite Z.bit0_odd. }
  destruct (burst_registers e w ltac:(lia) HPr HPt (refInit e) A B b s Htbl Hlen Hs Hb Hdiff)
    as (rA & rB & d & HA & HB & Hd & Hnz & Hdr).
  unfold Calc. rewrite !CalcBits_run, HA, HB. do 2 eexists.
  split; [reflexivity|]. split; [reflexivity|]. subst d.
  apply results_differ; rewrite ?Hw; [lia|exact Hnz|exact Hdr].
Qed.

(** X18: in an engine that [NewAlgo] returns for an odd polynomial, two
    inputs of the same length whose bits, in the order in which the engine
    consumes them, differ only within a window of [width] bits, and do
    differ, have different CRCs: every burst error of up to [width] bits is
    detected, and so is every single flipped bit. *)
Theorem burst_error_detected T w poly init xo ri ro (e : algo T) (A B : list byte) b s :
  NewAlgo T w poly init xo ri ro = Ret e ->
  Z.odd poly = true ->
  length A = length B ->
  0 <= s -> 0 < b < 2 ^ w ->
  Z.lxor (input_value e A) (input_value e B) = Z.shiftl b s ->
  exists vA vB, Calc e A = Ret vA /\ Calc e B = Ret vB /\ vA <> vB.
Proof. apply detected. Qed.

Lemma burst_error_detected_witness :
  exists e : algo uint8,
    CRC5USB = Ret e /\
    exists vA vB,
      Calc e [x31; x32; x33] = Ret vA /\ Calc e [x31; xd2; x30] = Ret vB /\ vA <> vB.
Proof.
  eexists. split; [vm_compute; reflexivity|].
  apply (burst_error_detected uint8 5 0x05 0x1f 0x1f true true _ _ _ 0x1f 13);
    [vm_compute; reflexivity|reflexivity|reflexivity|lia|lia|vm_compute; reflexivity].
Defined.

Lemma byteZ_inj x y : byteZ x = byteZ y -> x = y.
Proof.
  unfold byteZ. intros H. apply N2Z.inj in H.
  pose proof (Byte.of_to_N x) as Hx. rewrite H, Byte.of_to_N in Hx. congruence.
Qed.

Lemma inbyte_inj {T} (e : algo T) x y : inbyte e x = inbyte e y -> x = y.
Proof.
  intros H. apply byteZ_inj. pose proof (byteZ_range x) as Hx.
  pose proof (byteZ_range y) as Hy. change 256 with (2 ^ 8) in Hx, Hy.
  apply range_bits in Hx as [_ Hx]; [|lia]. apply range_bits in Hy as [_ Hy]; [|lia].
  apply Z.bits_inj'. intros i Hi.
  destruct (Z.lt_ge_cases i 8) as [Hlt|Hge]; [|now rewrite Hx, Hy].
  pose proof (f_equal (fun z => Z.testbit z (if refin e then i else 7 - i)) H) as Hb.
  cbn beta in Hb. rewrite !inbyte_testbit in Hb by (destruct (refin e); lia).
  destruct (refin e).
  - now rewrite (proj2 (Z.ltb_lt i 8)) in Hb by lia.
  - rewrite (proj2 (Z.ltb_lt (7 - i) 8)) in Hb by lia.
    now replace (7 - (7 - i)) with i in Hb by lia.
Qed.

Lemma input_value_insert {T} (e : algo T) data (i : nat) x y :
  data !! i = Some x ->
  Z.lxor (input_value e data) (input_value e (<[i:=y]> data)) =
  Z.shiftl (Z.lxor (inbyte e x) (inbyte e y)) (8 * Z.of_nat i).
Proof.
  revert i. induction data as [|b data IH]; intros [|i] Hx; try discriminate.
  - cbn in Hx. injection Hx as ->. cbn [insert list_insert input_value].
    rewrite lxor_cancel_r. change (8 * Z.of_nat 0) with 0. now rewrite Z.shiftl_0_r.
  - cbn in Hx. change (<[S i:=y]> (b :: data)) with (b :: <[i:=y]> data).
    cbn [input_value].
    rewrite lxor_cancel, <- Z.shiftl_lxor, (IH i Hx), Z.shiftl_shiftl by lia.
    f_equal. lia.
Qed.

(** X19: in an engine that [NewAlgo] returns for an odd polynomial and a
    width of at least 8, replacing one byte of the input by a different byte
    changes the CRC. *)
Theorem changed_byte_detected T w poly init xo ri ro (e : algo T) (data : list byte)
    (i : nat) (x y : byte) :
  NewAlgo T w poly init xo ri ro = Ret e ->
  Z.odd poly = true ->
  8 <= w ->
  data !! i = Some x ->
  y <> x ->
  exists v v', Calc e data = Ret v /\ Calc e (<[i:=y]> data) = Ret v' /\ v <> v'.
Proof.
  intros Hnew Hodd Hw Hx Hne.
  apply (detected w poly init xo ri ro e data (<[i:=y]> data)
           (Z.lxor (inbyte e x) (inbyte e y)) (8 * Z.of_nat i) Hnew Hodd).
  - now rewrite length_insert.
  - lia.
  - pose proof (inbyte_range e x) as Hbx. pose proof (inbyte_range e y) as Hby.
    change 256 with (2 ^ 8) in Hbx, Hby.
    pose proof (lxor_range 8 _ _ ltac:(lia) Hbx Hby) as Hr.
    assert (2 ^ 8 <= 2 ^ w) by (apply Z.pow_le_mono_r; lia).
    assert (Z.lxor (inbyte e x) (inbyte e y) <> 0).
    { intros Hz. apply Z.lxor_eq in Hz. apply inbyte_inj in Hz. congruence. }
    lia.
  - now apply input_value_insert.
Qed.

Lemma changed_byte_detected_witness :
  exists e : algo uint32,
    CRC32ISOHDLC = Ret e /\
    exists v v',
      Calc e [x31; x32; x33] = Ret v /\ Calc e (<[1%nat:=x00]> [x31; x32; x33]) = Ret v' /\
      v <> v'.
Proof.
  eexists. split; [vm_compute; reflexivity|].
  apply (changed_byte_detected uint32 32 0x04c11db7 0xffffffff 0xffffffff true true _ _ 1 x32 x00);
    [vm_compute; reflexivity|reflexivity|lia|reflexivity|discriminate].
Defined.

Lemma forallb_Forall {A} (f : A -> bool) (P : A -> Prop) (l : list A) :
  (forall x, f x = true -> P x) -> forallb f l = true -> Forall P l.
Proof.
  intros HfP. induction l as [|x l IH]; cbn [forallb]; intros H; constructor.
  - apply HfP. now apply andb_prop in H.
  - apply IH. now apply andb_prop in H.
Qed.

(** X20: every preset of the table [presets], which lists every preset of
    the catalogue, has an odd polynomial and builds its engine, and that
    engine detects every burst error of up to [width] bits. *)
Theorem catalogue_detects_bursts :
  Forall (fun row =>
            exists pr e,
              row_preset row = Ret pr /\
              Z.odd (p_poly pr) = true /\
              fst (preset_Algo pr) = Ret (Some e) /\
              detects_bursts e)
         presets.
Proof.
  apply (forallb_Forall row_polynomial_odd); [|vm_compute; reflexivity].
  intros row H. unfold row_polynomial_odd in H.
  destruct (row_preset row) as [pr| |]; try discriminate.
  apply andb_prop in H as [H Hnew]. apply andb_prop in H as [Honce Hodd].
  destruct (NewAlgo _ _ _ _ _ _ _) as [e| |] eqn:He; try discriminate.
  exists pr, e. split; [reflexivity|]. split; [exact Hodd|]. split.
  - unfold preset_Algo. apply negb_true_iff in Honce. now rewrite Honce, He.
  - intros A B b s Hlen Hs Hb Hdiff.
    destruct (NewAlgo_fields _ _ _ _ _ _ _ He) as (Hw & _).
    rewrite Hw in Hb. exact (detected _ _ _ _ _ _ e A B b s He Hodd Hlen Hs Hb Hdiff).
Qed.
